(** * dpi: DuckDB Parquet/CSV Inspector

    A shallow embedding of [cmd/root.go] and the properties of its
    orchestration logic: format detection, input resolution, the staging
    directory, the load statement, the two engine invocations and the
    signal listener.

    Go strings are byte sequences and are modelled as [string] (a list of
    8-bit [ascii]).  The operating system (file system, process spawning,
    signal delivery) is an oracle record [Env]; every call the program
    makes to it is logged in a trace, so that statements about "what the
    run did" are statements about that trace. *)

From Stdlib Require Import String Ascii List ZArith Lia Bool Arith.
Import ListNotations.

Open Scope list_scope.
Open Scope string_scope.

(* ===================================================================== *)
(** * Go library functions used by the program                            *)
(* ===================================================================== *)

(** The newline byte written by [Fprintln] and by ["\n"] in a format. *)
Definition nl : string := String (ascii_of_nat 10) EmptyString.

(** [os.IsPathSeparator] on Unix. *)
Definition IsPathSeparator (c : ascii) : bool := Ascii.eqb c "/".

(** The loop of [filepath.Ext]:
    [for i := len(path)-1; i >= 0 && !IsPathSeparator(path[i]); i--]
    with [n = i + 1]; a dot found at [i] returns [path[i:]]. *)
Fixpoint extLoop (path : string) (n : nat) : string :=
  match n with
  | O => EmptyString
  | S i =>
      match String.get i path with
      | Some c =>
          if IsPathSeparator c then EmptyString
          else if Ascii.eqb c "." then substring i (String.length path - i) path
          else extLoop path i
      | None => EmptyString
      end
  end.

Definition Ext (path : string) : string := extLoop path (String.length path).

(** ['A' <= c && c <= 'Z']. *)
Definition isUpper (c : ascii) : bool :=
  Nat.leb 65 (nat_of_ascii c) && Nat.leb (nat_of_ascii c) 90.

(** [c += 'a' - 'A'] for an upper-case byte. *)
Definition lowerByte (c : ascii) : ascii :=
  if isUpper c then ascii_of_nat (nat_of_ascii c + 32) else c.

(** [strings.ToLower] on the bytes of the string.  The library function
    lowers ASCII letters byte by byte; on a string that holds a byte above
    127 it decodes runes and maps each through [unicode.ToLower].  The
    only non-ASCII runes whose lower case is an ASCII byte are U+0130
    (to [i]) and U+212A (to [k]); neither letter occurs in an extension
    this program recognises, so the classification below is the same
    under both readings.  Bytes above 127 are left as they are here. *)
Fixpoint ToLower (s : string) : string :=
  match s with
  | EmptyString => EmptyString
  | String c r => String (lowerByte c) (ToLower r)
  end.

(** [strings.Join(elems, sep)]. *)
Fixpoint strings_Join (elems : list string) (sep : string) : string :=
  match elems with
  | [] => EmptyString
  | [e] => e
  | e :: rest => e ++ sep ++ strings_Join rest sep
  end.

(** [strings.Split(s, sep)] for a one-byte separator: the pieces between
    the separators, empty pieces included. *)
Fixpoint splitOn (sep : ascii) (s : string) : list string :=
  match s with
  | EmptyString => [EmptyString]
  | String c r =>
      if Ascii.eqb c sep then EmptyString :: splitOn sep r
      else match splitOn sep r with
           | [] => [String c EmptyString]
           | p :: ps => String c p :: ps
           end
  end.

(** One path element met by [filepath.Clean], on the stack of elements
    kept so far (most recent first): empty elements and [.] are dropped,
    [..] removes the element before it, is kept in front of a relative
    path and is dropped at the root. *)
Definition cleanStep (rooted : bool) (stack : list string) (elem : string)
  : list string :=
  if String.eqb elem EmptyString || String.eqb elem "." then stack
  else if String.eqb elem ".." then
    match stack with
    | top :: below => if String.eqb top ".." then elem :: stack else below
    | [] => if rooted then [] else [elem]
    end
  else elem :: stack.

(** [filepath.Clean] on Unix: the shortest path equivalent to [path] by
    lexical processing. *)
Definition Clean (path : string) : string :=
  match path with
  | EmptyString => "."
  | String c _ =>
      let rooted := IsPathSeparator c in
      let kept := rev (fold_left (cleanStep rooted) (splitOn "/" path) []) in
      let body := strings_Join kept "/" in
      if rooted then "/" ++ body
      else if String.eqb body EmptyString then "." else body
  end.

(** [filepath.Join(elem...)] on Unix: the first non-empty element starts
    the path, which is joined with separators and cleaned. *)
Fixpoint filepath_Join (elem : list string) : string :=
  match elem with
  | [] => EmptyString
  | e :: rest =>
      if String.eqb e EmptyString then filepath_Join rest
      else Clean (strings_Join elem "/")
  end.

(** The [%v] verb on a bool. *)
Definition fmtBool (b : bool) : string := if b then "true" else "false".

(* ===================================================================== *)
(** * Constants and format detection                                      *)
(* ===================================================================== *)

(** [type FileFormat string]. *)
Definition FileFormat := string.
Definition Parquet : FileFormat := "parquet".
Definition CSV : FileFormat := "csv".

(** The value [determineFileFormat] returns for an unsupported format. *)
Definition Unsupported : FileFormat := EmptyString.

Definition TableName : string := "p".

(** [type FileNameString string]. *)
Definition FileNameString := string.

Definition determineFileFormat (filename : string) : FileFormat :=
  let ext := Ext filename in
  let low := ToLower ext in
  if String.eqb low ".parquet" then Parquet
  else if String.eqb low ".csv" || String.eqb low ".gz" then CSV
  else Unsupported.

(** ** Case-insensitive comparison, stated without [ToLower] *)

(** Two bytes are the same letter when they are equal or one is the
    upper-case form of the other. *)
Definition sameLetter (a b : ascii) : bool :=
  Ascii.eqb a b
  || (isUpper a && Ascii.eqb (ascii_of_nat (nat_of_ascii a + 32)) b)
  || (isUpper b && Ascii.eqb a (ascii_of_nat (nat_of_ascii b + 32))).

Fixpoint equalFold (s t : string) : bool :=
  match s, t with
  | EmptyString, EmptyString => true
  | String a s', String b t' => sameLetter a b && equalFold s' t'
  | _, _ => false
  end.

Fixpoint noUpper (s : string) : bool :=
  match s with
  | EmptyString => true
  | String c r => negb (isUpper c) && noUpper r
  end.

(* ===================================================================== *)
(** * The operating system as seen by the program                         *)
(* ===================================================================== *)

(** The signals registered by [signal.Notify(sigChan, os.Interrupt,
    syscall.SIGTERM)].  Other signals keep their default disposition and
    are outside this model. *)
Inductive Signal := SIGINT | SIGTERM.

Definition signum (s : Signal) : Z :=
  match s with SIGINT => 2 | SIGTERM => 15 end.

(** The [%v] verb on an [os.Signal]. *)
Definition signalName (s : Signal) : string :=
  match s with SIGINT => "interrupt" | SIGTERM => "terminated" end.

(** Why [os.Stat] failed. *)
Inductive Errno := ENOENT | EACCES | ENOTDIR | ELOOP | ENAMETOOLONG | EIO.

(** [os.IsNotExist(err)], with [None] for a nil error: of the errors
    [os.Stat] returns only [ENOENT] is "does not exist". *)
Definition IsNotExist (err : option Errno) : bool :=
  match err with
  | Some ENOENT => true
  | _ => false
  end.

(** A Go [error] is carried as its message; [None] is [nil]. *)
Definition error := option string.

(** What happens besides the main goroutine between two of its steps: a
    registered signal arrives, or the listener goroutine is scheduled. *)
Inductive Bg := Arrive (sig : Signal) | Sched.

Record Env := mkEnv {
  (** [filepath.Glob]: the matches in expansion order, or [None] for
      [ErrBadPattern], the only error it returns. *)
  fsGlob : string -> option (list string);
  (** The error of [os.Stat]. *)
  fsStat : string -> option Errno;
  (** [os.MkdirTemp(dir, pattern)]: the new directory or the error. *)
  fsMkdirTemp : string -> string -> string + string;
  (** The error of [cmd.Run()] for the command line [args]: a spawn
      failure or a non-zero exit; [None] when the child exits with 0. *)
  procRun : list string -> error;
  (** The background events that happen just before the main goroutine's
      [n]-th operation. *)
  background : nat -> list Bg
}.

(** Who performs a logged operation: the main goroutine, the listener
    goroutine, or the Go runtime relaying a signal to the channel. *)
Inductive Actor := MainG | ListenerG | RuntimeG.

Inductive Op :=
| Stdout (s : string)
| Stderr (s : string)
| CallGlob (pattern : string)
| CallStat (name : string)
| CallMkdirTemp (dir pattern : string)
| CallRun (args : list string)
| CallRemoveAll (path : string)
| StoreFlag                       (* signalReceived.Store(true) *)
| LoadFlag                        (* signalReceived.Load() *)
| Deliver (sig : Signal).         (* a registered signal arrives *)

Definition Event : Type := Actor * Op.

(** The goroutine started by [setupSignalHandler]: absent before that
    call, it then waits for one value of the channel, stores the flag,
    prints the notice and ends. *)
Inductive Listener := LAbsent | LWaiting | LStored (sig : Signal) | LDone.

Record World := mkWorld {
  trace : list Event;            (* oldest first *)
  tempDirs : list string;        (* staging directories now on disk *)
  sigChan : option Signal;       (* make(chan os.Signal, 1) *)
  listener : Listener;
  signalReceived : bool;         (* atomic.Bool *)
  clock : nat
}.

(** The world at the entry of [runCommand]. *)
Definition initWorld : World :=
  mkWorld [] [] None LAbsent false 0.

Definition emit (a : Actor) (o : Op) (w : World) : World :=
  mkWorld (trace w ++ [(a, o)])%list (tempDirs w) (sigChan w) (listener w)
          (signalReceived w) (clock w).

Definition setTempDirs (ds : list string) (w : World) : World :=
  mkWorld (trace w) ds (sigChan w) (listener w) (signalReceived w) (clock w).

(** [make(chan os.Signal, 1)], [signal.Notify], [var signalReceived
    atomic.Bool] and [go func() { ... }()]. *)
Definition startListener (w : World) : World :=
  mkWorld (trace w) (tempDirs w) None LWaiting false (clock w).

Definition advance (w : World) : World :=
  mkWorld (trace w) (tempDirs w) (sigChan w) (listener w) (signalReceived w)
          (S (clock w)).

Definition opsOf (a : Actor) (t : list Event) : list Op :=
  flat_map (fun e => match a, fst e with
                     | MainG, MainG | ListenerG, ListenerG
                     | RuntimeG, RuntimeG => [snd e]
                     | _, _ => []
                     end) t.

(** The operations of the main goroutine, in order. *)
Definition mainOps (t : list Event) : list Op := opsOf MainG t.

(** The operations of the listener goroutine, in order. *)
Definition listenerOps (t : list Event) : list Op := opsOf ListenerG t.

(** The signals that arrived, in order. *)
Definition arrivals (t : list Event) : list Signal :=
  flat_map (fun o => match o with Deliver sig => [sig] | _ => [] end)
           (opsOf RuntimeG t).

Definition noticeText (sig : Signal) : string :=
  nl ++ "Received signal " ++ signalName sig
     ++ ", waiting for DuckDB to exit..." ++ nl.

(** One background event.  A signal is sent to the channel without
    blocking, so it is dropped when the one-slot buffer is full.  The
    listener, when scheduled, performs its next statement.  Before
    [signal.Notify] nothing is relayed; the run has no background event
    that early. *)
Definition bgStep (w : World) (b : Bg) : World :=
  match b with
  | Arrive sig =>
      match listener w with
      | LAbsent => w
      | _ =>
          let w' := emit RuntimeG (Deliver sig) w in
          match sigChan w with
          | None => mkWorld (trace w') (tempDirs w') (Some sig) (listener w')
                            (signalReceived w') (clock w')
          | Some _ => w'
          end
      end
  | Sched =>
      match listener w with
      | LAbsent => w
      | LWaiting =>
          match sigChan w with
          | Some sig =>
              (* sig := <-sigChan; signalReceived.Store(true) *)
              let w' := emit ListenerG StoreFlag w in
              mkWorld (trace w') (tempDirs w') None (LStored sig) true
                      (clock w')
          | None => w
          end
      | LStored sig =>
          (* fmt.Fprintf(os.Stderr, "\nReceived signal %v, ...\n", sig) *)
          let w' := emit ListenerG (Stderr (noticeText sig)) w in
          mkWorld (trace w') (tempDirs w') (sigChan w') LDone
                  (signalReceived w') (clock w')
      | LDone => w
      end
  end.

Definition bgRun (w : World) (bs : list Bg) : World := fold_left bgStep bs w.

(* ===================================================================== *)
(** * The main goroutine                                                  *)
(* ===================================================================== *)

(** A computation either returns to its caller or ends the process
    ([os.Exit]). *)
Inductive Outcome (A : Type) :=
| Returned (a : A) (w : World)
| Exited (code : Z) (w : World).
Arguments Returned {A} a w.
Arguments Exited {A} code w.

Definition Go (A : Type) : Type := World -> Outcome A.

Definition ret {A} (a : A) : Go A := fun w => Returned a w.

Definition bind {A B} (m : Go A) (k : A -> Go B) : Go B :=
  fun w => match m w with
           | Returned a w' => k a w'
           | Exited c w' => Exited c w'
           end.

Notation "x <- m ;; k" := (bind m (fun x => k))
  (at level 61, m at next level, right associativity).
Notation "' pat <- m ;; k" :=
  (bind m (fun x => match x with pat => k end))
  (at level 61, pat pattern, m at next level, right associativity).
Notation "m ;;; k" := (bind m (fun _ => k))
  (at level 61, right associativity).

(** [if cond { body }]. *)
Definition when (cond : bool) (body : Go unit) : Go unit :=
  if cond then body else ret tt.

(** [defer d] followed by the rest of the function body: [d] runs when
    the body returns.  [os.Exit] ends the process at once and runs no
    deferred call.  Nested uses run last-registered first. *)
Definition defer {A} (d : Go unit) (body : Go A) : Go A :=
  fun w => match body w with
           | Returned a w' =>
               match d w' with
               | Returned _ w'' => Returned a w''
               | Exited c w'' => Exited c w''
               end
           | Exited c w' => Exited c w'
           end.

Definition isErr (e : error) : bool :=
  match e with Some _ => true | None => false end.

(** The [%v] verb on an error. *)
Definition errText (e : error) : string :=
  match e with Some m => m | None => "<nil>" end.

Definition outcomeWorld {A} (r : Outcome A) : World :=
  match r with Returned _ w => w | Exited _ w => w end.

Section Program.

Variable env : Env.

(** The background events due before the next operation of the main
    goroutine. *)
Definition tick (w : World) : World :=
  advance (bgRun w (background env (clock w))).

(** An operation of the main goroutine, logged. *)
Definition op (o : Op) : Go unit :=
  fun w => Returned tt (emit MainG o (tick w)).

Definition osExit (code : Z) : Go unit :=
  fun w => Exited code w.

Definition osStat (name : string) : Go (option Errno) :=
  op (CallStat name) ;;; ret (fsStat env name).

Definition filepathGlob (pattern : string) : Go (option (list string)) :=
  op (CallGlob pattern) ;;; ret (fsGlob env pattern).

Definition osMkdirTemp (dir pattern : string) : Go (string * error) :=
  op (CallMkdirTemp dir pattern) ;;;
  match fsMkdirTemp env dir pattern with
  | inl d => fun w => Returned (d, None) (setTempDirs (d :: tempDirs w) w)
  | inr e => ret (EmptyString, Some e)
  end.

Definition osRemoveAll (path : string) : Go unit :=
  op (CallRemoveAll path) ;;;
  fun w => Returned tt
             (setTempDirs
                (filter (fun d => negb (String.eqb d path)) (tempDirs w)) w).

Definition cmdRun (args : list string) : Go error :=
  op (CallRun args) ;;; ret (procRun env args).

Definition loadSignalReceived : Go bool :=
  op LoadFlag ;;; fun w => Returned (signalReceived w) w.

(** ** The functions of [cmd/root.go] *)

Definition exitWithError (msg : string) : Go unit :=
  op (Stderr ("Error: " ++ msg ++ nl)) ;;;
  osExit 1.

Definition fileExists (filename : string) : Go bool :=
  err <- osStat filename ;;
  ret (negb (IsNotExist err)).

Definition createTempDirectory : Go (string * error) :=
  osMkdirTemp EmptyString "dpi".

Definition executeCommand (args : list string) : Go error :=
  match args with
  | [] => ret (Some "no command provided")
  | _ => cmdRun args
  end.

(** The [switch fileFormat] of [createTemporaryTable]: the query of the
    two formats, and [None] for its [default] branch. *)
Definition loadQuery (filename : FileNameString) (fileFormat : FileFormat)
    (strict : bool) : option string :=
  if String.eqb fileFormat Parquet then
    Some ("CREATE TABLE " ++ TableName ++ " AS SELECT * FROM read_parquet(["
            ++ filename ++ "]);")
  else if String.eqb fileFormat CSV then
    Some ("CREATE TABLE " ++ TableName ++ " AS SELECT * FROM read_csv("
            ++ filename ++ ", strict_mode=" ++ fmtBool strict ++ ");")
  else None.

Definition createTemporaryTable (filename : FileNameString) (tempDir : string)
    (fileFormat : FileFormat) (strict : bool) : Go error :=
  match loadQuery filename fileFormat strict with
  | None => ret (Some ("unsupported file format: " ++ fileFormat))
  | Some query =>
      let duckdbPath := filepath_Join [tempDir; "tmp.duckdb"] in
      let cmds := ["duckdb"; duckdbPath; "-c"; query] in
      err <- executeCommand cmds ;;
      if isErr err
      then ret (Some ("failed to create temporary table: " ++ errText err))
      else ret None
  end.

Definition findParquetFiles (pattern : string) : Go (list string * error) :=
  r <- filepathGlob pattern ;;
  match r with
  | None => ret ([], Some ("invalid file pattern '" ++ pattern
                             ++ "': syntax error in pattern"))
  | Some files => ret (files, None)
  end.

(** ["'" + f + "'"]. *)
Definition quote (f : string) : string := "'" ++ f ++ "'".

Definition processInputFiles (filePath : string) (fileFormat : FileFormat)
  : Go (FileNameString * error) :=
  if String.eqb fileFormat Parquet then
    '(files, err) <- findParquetFiles filePath ;;
    if isErr err then ret (EmptyString, err)
    else if Nat.eqb (List.length files) 0 then
      ret (EmptyString,
           Some ("no Parquet files found matching pattern: " ++ filePath))
    else
      let filenames := map quote files in
      ret (strings_Join filenames ",", None)
  else
    ex <- fileExists filePath ;;
    if negb ex then
      ret (EmptyString, Some ("file does not exist: " ++ filePath))
    else ret (quote filePath, None).

(** The function returned by [setupSignalHandler]. *)
Definition signalCleanup : Go unit :=
  got <- loadSignalReceived ;;
  when got (op (Stderr ("Cleanup completed, exiting" ++ nl)) ;;;
            osExit 130).

Definition setupSignalHandler : Go (Go unit) :=
  fun w => Returned signalCleanup (startListener w).

(** [runCommand]; [filePath] is [args[0]] and [strict] the value of the
    flag. *)
Definition runCommand (filePath : string) (strict : bool) : Go unit :=
  cleanupSignalHandler <- setupSignalHandler ;;
  defer cleanupSignalHandler (
    op (Stdout ("============== Initial dpi setup ==============" ++ nl)) ;;;
    let fileFormat := determineFileFormat filePath in
    when (String.eqb fileFormat EmptyString)
         (exitWithError ("Unsupported file format for file: " ++ filePath)) ;;;
    op (Stdout ("Detected file format: " ++ fileFormat ++ nl)) ;;;
    '(tempDir, err) <- createTempDirectory ;;
    when (isErr err)
         (exitWithError ("Failed to create temporary directory: "
                           ++ errText err)) ;;;
    defer (osRemoveAll tempDir) (
      op (Stdout ("Using temporary directory: " ++ tempDir ++ nl)) ;;;
      '(filename, err) <- processInputFiles filePath fileFormat ;;
      when (isErr err) (exitWithError (errText err)) ;;;
      err <- createTemporaryTable filename tempDir fileFormat strict ;;
      when (isErr err)
           (exitWithError ("Creating temporary table failed: "
                             ++ errText err)) ;;;
      op (Stdout ("Temporary table created successfully" ++ nl)) ;;;
      op (Stdout ("============== Starting DuckDB CLI ==============" ++ nl)) ;;;
      let duckdbPath := filepath_Join [tempDir; "tmp.duckdb"] in
      let cmds := ["duckdb"; duckdbPath] in
      err <- executeCommand cmds ;;
      when (isErr err)
           (exitWithError ("Failed to execute DuckDB: " ++ errText err)))).

End Program.

(** Modelled from the spec: the program's entry point (package main) is
    not among the sources.  The exit status of the process is the code
    given to [os.Exit]; when the command returns instead, the process
    "exits with the status produced by the normal command result", which
    is 0, "normal success". *)
Definition exitStatus {A} (r : Outcome A) : Z :=
  match r with
  | Returned _ _ => 0
  | Exited code _ => code
  end.

(* ===================================================================== *)
(** * The design, in the words of the specification                       *)
(* ===================================================================== *)

(** The definitions of this module follow the specification, not the
    code; the theorems below compare the code with them. *)
Module Spec.

(** The three ways resolution fails. *)
Inductive ResolutionError := BadPattern | NoMatch | NotFound.

(** [resolve(pathOrPattern, format)]: the columnar format expands the
    pattern and needs at least one match; every other format takes the
    path as it is, and the path must exist. *)
Definition resolve (env : Env) (pathOrPattern : string) (format : FileFormat)
  : list string + ResolutionError :=
  if String.eqb format Parquet then
    match fsGlob env pathOrPattern with
    | None => inr BadPattern
    | Some [] => inr NoMatch
    | Some files => inl files
    end
  else
    match fsStat env pathOrPattern with
    | Some ENOENT => inr NotFound
    | _ => inl [pathOrPattern]
    end.

(** The message of each resolution error. *)
Definition describe (e : ResolutionError) (path : string) : string :=
  match e with
  | BadPattern => "invalid file pattern '" ++ path ++ "': syntax error in pattern"
  | NoMatch => "no Parquet files found matching pattern: " ++ path
  | NotFound => "file does not exist: " ++ path
  end.

(** The line a fatal error leaves on the error stream. *)
Definition errLine (msg : string) : Op := Stderr ("Error: " ++ msg ++ nl).

(** The database file of a staging directory. *)
Definition dbPath (workspace : string) : string :=
  filepath_Join [workspace; "tmp.duckdb"].

(** The one-shot materialization command and the interactive one. *)
Definition loadArgs (workspace query : string) : list string :=
  ["duckdb"; dbPath workspace; "-c"; query].
Definition shellArgs (workspace : string) : list string :=
  ["duckdb"; dbPath workspace].

(** Where the body of a run ends: at a fatal error of one of the
    components, or after the interactive session. *)
Inductive Stage :=
| UnsupportedFormat
| StagingFailed
| ResolutionFailed (e : ResolutionError)
| LoadFailed
| LaunchFailed
| Completed.

Definition setupLine : Op :=
  Stdout ("============== Initial dpi setup ==============" ++ nl).
Definition detectedLine (format : FileFormat) : Op :=
  Stdout ("Detected file format: " ++ format ++ nl).
Definition usingLine (workspace : string) : Op :=
  Stdout ("Using temporary directory: " ++ workspace ++ nl).
Definition createdLine : Op :=
  Stdout ("Temporary table created successfully" ++ nl).
Definition startingLine : Op :=
  Stdout ("============== Starting DuckDB CLI ==============" ++ nl).
Definition cleanupLine : Op :=
  Stderr ("Cleanup completed, exiting" ++ nl).

(** The call by which a format is resolved. *)
Definition resolveCall (path : string) (format : FileFormat) : Op :=
  if String.eqb format Parquet then CallGlob path else CallStat path.

(** The operations of the main goroutine up to the end of the body of the
    run (the final check of the signal flag apart), and where it ends. *)
Definition script (env : Env) (path : string) (strict : bool)
  : list Op * Stage :=
  let format := determineFileFormat path in
  if String.eqb format Unsupported then
    ([setupLine; errLine ("Unsupported file format for file: " ++ path)],
     UnsupportedFormat)
  else
    let head1 := [setupLine; detectedLine format;
                  CallMkdirTemp EmptyString "dpi"] in
    match fsMkdirTemp env EmptyString "dpi" with
    | inr e =>
        ((head1 ++ [errLine ("Failed to create temporary directory: " ++ e)])%list,
         StagingFailed)
    | inl ws =>
        let head2 := (head1 ++ [usingLine ws; resolveCall path format])%list in
        match resolve env path format with
        | inr e => ((head2 ++ [errLine (describe e path)])%list,
                    ResolutionFailed e)
        | inl files =>
            let names := strings_Join (map quote files) "," in
            match loadQuery names format strict with
            | None =>
                ((head2 ++ [errLine ("Creating temporary table failed: "
                                       ++ "unsupported file format: " ++ format)])%list,
                 LoadFailed)
            | Some query =>
                let head3 := (head2 ++ [CallRun (loadArgs ws query)])%list in
                match procRun env (loadArgs ws query) with
                | Some e =>
                    ((head3 ++ [errLine ("Creating temporary table failed: "
                                  ++ "failed to create temporary table: " ++ e)])%list,
                     LoadFailed)
                | None =>
                    let head4 := (head3 ++ [createdLine; startingLine;
                                            CallRun (shellArgs ws)])%list in
                    match procRun env (shellArgs ws) with
                    | Some e =>
                        ((head4 ++ [errLine ("Failed to execute DuckDB: " ++ e)])%list,
                         LaunchFailed)
                    | None => ((head4 ++ [CallRemoveAll ws])%list, Completed)
                    end
                end
            end
        end
    end.

(** Reading a single-quoted SQL literal after its opening quote: a
    doubled quote stands for one quote inside the literal, a single one
    closes it.  The result is the literal's value and the text after the
    closing quote. *)
Fixpoint scanLiteral (s : string) : option (string * string) :=
  match s with
  | EmptyString => None
  | String c r =>
      if Ascii.eqb c "'" then
        match r with
        | String c2 r2 =>
            if Ascii.eqb c2 "'" then
              match scanLiteral r2 with
              | Some (v, rest) => Some (String c v, rest)
              | None => None
              end
            else Some (EmptyString, r)
        | EmptyString => Some (EmptyString, EmptyString)
        end
      else
        match scanLiteral r with
        | Some (v, rest) => Some (String c v, rest)
        | None => None
        end
  end.

Definition sqlLiteral (s : string) : option (string * string) :=
  match s with
  | String c r => if Ascii.eqb c "'" then scanLiteral r else None
  | EmptyString => None
  end.

(** The fragment written for [path], followed by [rest], is a correctly
    delimited literal: it reads as one literal whose value is [path] and
    that ends where the fragment ends. *)
Definition delimited (path rest : string) : Prop :=
  sqlLiteral (quote path ++ rest) = Some (path, rest).

(** Reading a comma-separated list of literals, one literal for each
    unit of [fuel]. *)
Fixpoint parseNames (fuel : nat) (s : string) : option (list string) :=
  match fuel with
  | O => None
  | S n =>
      match sqlLiteral s with
      | Some (v, EmptyString) => Some [v]
      | Some (v, String c rest) =>
          if Ascii.eqb c "," then
            match parseNames n rest with
            | Some vs => Some (v :: vs)
            | None => None
            end
          else None
      | None => None
      end
  end.

(** How a literal with the value [v] is written: every quote doubled. *)
Fixpoint escape (v : string) : string :=
  match v with
  | EmptyString => EmptyString
  | String c r =>
      if Ascii.eqb c "'" then String c (String c (escape r))
      else String c (escape r)
  end.

End Spec.

(** The path contains a single-quote byte. *)
Fixpoint hasQuote (s : string) : bool :=
  match s with
  | EmptyString => false
  | String c r => Ascii.eqb c "'" || hasQuote r
  end.

(** The first signal of a sequence of arrivals. *)
Definition firstArrival (t : list Event) : option Signal := hd_error (arrivals t).

(** How often the flag was stored. *)
Definition storeCount (t : list Event) : nat :=
  List.length (filter (fun o => match o with StoreFlag => true | _ => false end)
                      (opsOf ListenerG t ++ opsOf MainG t)%list).

(** The listener and the flag agree with what the trace records: nothing
    before the first signal is taken from the channel, then one store,
    then the notice for that signal, then nothing more. *)
Definition listenerInv (w : World) : Prop :=
  match listener w with
  | LAbsent => False
  | LWaiting =>
      signalReceived w = false /\ listenerOps (trace w) = []
      /\ sigChan w = firstArrival (trace w)
  | LStored sig =>
      signalReceived w = true /\ listenerOps (trace w) = [StoreFlag]
      /\ firstArrival (trace w) = Some sig
  | LDone =>
      signalReceived w = true
      /\ exists sig, listenerOps (trace w) = [StoreFlag; Stderr (noticeText sig)]
                     /\ firstArrival (trace w) = Some sig
  end.

(** The error [createTemporaryTable] makes of the error of the
    subprocess. *)
Definition loadError (e : error) : error :=
  match e with
  | Some m => Some ("failed to create temporary table: " ++ m)
  | None => None
  end.

(** The command lines of the subprocesses among a sequence of
    operations. *)
Definition runCalls (ops : list Op) : list (list string) :=
  flat_map (fun o => match o with CallRun args => [args] | _ => [] end) ops.

(** The staging directories a run that ends at [st] leaves on disk. *)
Definition stagedAfter (env : Env) (st : Spec.Stage) : list string :=
  match st, fsMkdirTemp env EmptyString "dpi" with
  | (Spec.ResolutionFailed _ | Spec.LoadFailed | Spec.LaunchFailed), inl ws => [ws]
  | _, _ => []
  end.

(** The same file system and processes under another schedule of
    background events. *)
Definition withBackground (env : Env) (bg : nat -> list Bg) : Env :=
  mkEnv (fsGlob env) (fsStat env) (fsMkdirTemp env) (procRun env) bg.

(** The value a computation returns, if it returns. *)
Definition returned {A} (r : Outcome A) : option A :=
  match r with Returned a _ => Some a | Exited _ _ => None end.

(** No staging directory was requested during the run that ended in
    [w]. *)
Definition neverStaged (w : World) : Prop :=
  forall dir pattern, ~ In (CallMkdirTemp dir pattern) (mainOps (trace w)).

(** ** Concrete systems *)

(** A directory that holds [data.parquet] and [data.csv] and nothing
    else; every subprocess succeeds and no signal arrives. *)
Definition envQuiet : Env :=
  mkEnv (fun p => if String.eqb p "data.parquet" then Some ["data.parquet"]
                  else if String.eqb p "*.parquet" then Some ["data.parquet"]
                  else if String.eqb p "[.parquet" then None
                  else Some [])
        (fun p => if String.eqb p "data.csv" then None
                  else if String.eqb p "it's.csv" then None
                  else if String.eqb p "locked/data.csv" then Some EACCES
                  else Some ENOENT)
        (fun _ _ => inl "/tmp/dpi2063142327")
        (fun _ => None)
        (fun _ => []).

(** The same, with SIGTERM sent to the process during the interactive
    session (before the main goroutine's operation number 9, the one
    after the session's [cmd.Run]) and the listener scheduled twice. *)
Definition envTerm : Env :=
  withBackground envQuiet
    (fun n => if Nat.eqb n 9 then [Arrive SIGTERM; Sched; Sched] else []).

(** The same signal, with the interactive child killed by it: its
    [cmd.Run] returns an error. *)
Definition envKilled : Env :=
  mkEnv (fsGlob envQuiet) (fsStat envQuiet) (fsMkdirTemp envQuiet)
        (fun args => if Nat.eqb (List.length args) 2
                     then Some "signal: terminated" else None)
        (fun n => if Nat.eqb n 9 then [Arrive SIGTERM; Sched; Sched] else []).

(** The load of the table fails. *)
Definition envBadLoad : Env :=
  mkEnv (fsGlob envQuiet) (fsStat envQuiet) (fsMkdirTemp envQuiet)
        (fun args => if Nat.eqb (List.length args) 4
                     then Some "exit status 1" else None)
        (fun _ => []).

(** The text after a fragment does not open with a quote. *)
Definition plainStart (rest : string) : bool :=
  match rest with
  | String c _ => negb (Ascii.eqb c "'")
  | EmptyString => true
  end.

(** The flag is written by the listener only. *)
Definition flagInv (w : World) : Prop :=
  listenerInv w /\ ~ In StoreFlag (mainOps (trace w)).

(** [m] keeps the property [P] of the world, however it ends. *)
Definition preserves (P : World -> Prop) {A} (m : Go A) : Prop :=
  forall w, P w -> P (outcomeWorld (m w)).

(** A name without a dot and without a path separator. *)
Fixpoint plainName (s : string) : bool :=
  match s with
  | EmptyString => true
  | String c r =>
      negb (IsPathSeparator c) && negb (Ascii.eqb c ".") && plainName r
  end.

(** A path element that [filepath.Clean] keeps as it is: not empty, not
    [.] or [..], and without a separator. *)
Fixpoint noSeparator (s : string) : bool :=
  match s with
  | EmptyString => true
  | String c r => negb (Ascii.eqb c "/") && noSeparator r
  end.

Definition keptElement (e : string) : bool :=
  noSeparator e
  && negb (String.eqb e EmptyString)
  && negb (String.eqb e ".")
  && negb (String.eqb e "..").

(** The background events that happened before the first [n] operations
    of the main goroutine. *)
Fixpoint processed (env : Env) (n : nat) : list Bg :=
  match n with
  | O => []
  | S k => (processed env k ++ background env k)%list
  end.

(** The first signal of a sequence of background events, and how often
    the listener was scheduled after it arrived. *)
Fixpoint firstSignal (bs : list Bg) : option (Signal * nat) :=
  match bs with
  | [] => None
  | Arrive sig :: rest =>
      Some (sig,
            List.length (filter (fun b => match b with Sched => true
                                                      | Arrive _ => false end)
                                rest))
  | Sched :: rest => firstSignal rest
  end.

(** Where the listener stands after the background events [bs]: waiting
    with an empty channel while no signal arrived; waiting with the
    first signal in the channel until it is scheduled; the flag stored
    once it was scheduled; the notice for that signal printed once it
    was scheduled again; and nothing more after that. *)
Definition listenerShape (bs : list Bg) (w : World) : Prop :=
  match firstSignal bs with
  | None =>
      listener w = LWaiting /\ sigChan w = None
      /\ signalReceived w = false /\ listenerOps (trace w) = []
  | Some (sig, O) =>
      listener w = LWaiting /\ sigChan w = Some sig
      /\ signalReceived w = false /\ listenerOps (trace w) = []
  | Some (sig, S O) =>
      listener w = LStored sig
      /\ signalReceived w = true /\ listenerOps (trace w) = [StoreFlag]
  | Some (sig, S (S _)) =>
      listener w = LDone
      /\ signalReceived w = true
      /\ listenerOps (trace w) = [StoreFlag; Stderr (noticeText sig)]
  end.

(** The listener stands where the background events that happened so far
    put it. *)
Definition onSchedule (env : Env) (w : World) : Prop :=
  listenerShape (processed env (clock w)) w.

(* ===================================================================== *)
(** * The entry point                                                     *)
(* ===================================================================== *)

(** A text the command framework writes on its own. *)
Inductive Printed := ToStdout (s : string) | ToStderr (s : string).

Definition printedOp (p : Printed) : Op :=
  match p with
  | ToStdout s => Stdout s
  | ToStderr s => Stderr s
  end.

(** What [rootCmd.Execute()] makes of the command line.  The command
    framework returns an error without running the command (the wrong
    number of arguments for [cobra.ExactArgs(1)], an unknown flag),
    having printed its own error line and the usage text; or it handles
    the line itself, prints the help or the version and returns nil; or
    it calls [runCommand] with the one argument and the value of the
    [strict] flag and then returns nil.  The texts the framework prints
    are given with its decision. *)
Inductive Dispatch :=
| UsageError (printed : list Printed) (msg : string)
| Handled (printed : list Printed)
| RunWith (filePath : string) (strict : bool).

Record Host := mkHost {
  hostEnv : Env;
  (** [exec.LookPath(file)]: the path found, or the error. *)
  hostLookPath : string -> string + string;
  hostDispatch : Dispatch
}.

Section Entry.

Variable host : Host.

Definition ensureDuckDBBinary : Go error :=
  match hostLookPath host "duckdb" with
  | inl _ => ret None
  | inr _ =>
      ret (Some ("DuckDB binary not found in system PATH. "
                   ++ "Please install DuckDB: "
                   ++ "https://duckdb.org/docs/installation/"))
  end.

(** The framework writing its texts, one after the other. *)
Fixpoint printAll (texts : list Printed) : Go unit :=
  match texts with
  | [] => ret tt
  | p :: rest => op (hostEnv host) (printedOp p) ;;; printAll rest
  end.

Definition rootCmdExecute : Go error :=
  match hostDispatch host with
  | UsageError printed msg => printAll printed ;;; ret (Some msg)
  | Handled printed => printAll printed ;;; ret None
  | RunWith filePath strict =>
      runCommand (hostEnv host) filePath strict ;;; ret None
  end.

Definition Execute : Go unit :=
  err <- ensureDuckDBBinary ;;
  when (isErr err) (exitWithError (hostEnv host) (errText err)) ;;;
  err <- rootCmdExecute ;;
  when (isErr err)
       (exitWithError (hostEnv host)
          ("Command execution failed: " ++ errText err)).

End Entry.

(** What the main goroutine wrote to the error stream. *)
Definition stderrOf (ops : list Op) : list string :=
  flat_map (fun o => match o with Stderr s => [s] | _ => [] end) ops.

(** A host without the engine on its search path, and one that has it
    and is given one argument too many. *)
Definition hostBare : Host :=
  mkHost envQuiet (fun _ => inr "executable file not found in $PATH")
         (RunWith "data.parquet" false).

(** The usage text of the command. *)
Definition usageText : string :=
  "Usage:" ++ nl
  ++ "  dpi <file or pattern> [flags]" ++ nl ++ nl
  ++ "Examples:" ++ nl
  ++ "  dpi data.parquet" ++ nl
  ++ "  dpi *.parquet" ++ nl
  ++ "  dpi data.csv" ++ nl
  ++ "  dpi -s data.csv     # With strict mode for CSV" ++ nl ++ nl
  ++ "Flags:" ++ nl
  ++ "  -h, --help      help for dpi" ++ nl
  ++ "  -s, --strict    Enable strict mode (for CSV files)" ++ nl
  ++ "  -v, --version   version for dpi" ++ nl ++ nl.

Definition hostTwoArgs : Host :=
  mkHost envQuiet (fun _ => inl "/usr/bin/duckdb")
         (UsageError
            [ToStderr ("Error: accepts 1 arg(s), received 2" ++ nl);
             ToStderr usageText]
            "accepts 1 arg(s), received 2").

Definition hostMissingFile : Host :=
  mkHost envQuiet (fun _ => inl "/usr/bin/duckdb")
         (RunWith "missing.csv" false).

(* ===================================================================== *)
(** * Theorems                                                            *)
(* ===================================================================== *)

(** ** Strings *)

Lemma append_assoc (a b c : string) : (a ++ b) ++ c = a ++ (b ++ c).
Proof. induction a as [|x a IH]; cbn; [reflexivity | now rewrite IH]. Qed.

Lemma append_length (a b : string) :
  String.length (a ++ b) = String.length a + String.length b.
Proof. induction a as [|x a IH]; cbn; [reflexivity | now rewrite IH]. Qed.

Lemma append_inv_tail (a b c : string) : a ++ c = b ++ c -> a = b.
Proof.
  revert b. induction a as [|x a IH]; intros [|y b] H; cbn in H.
  - reflexivity.
  - exfalso. apply (f_equal String.length) in H. cbn in H.
    rewrite append_length in H. lia.
  - exfalso. apply (f_equal String.length) in H. cbn in H.
    rewrite append_length in H. lia.
  - injection H as -> H. f_equal. now apply IH.
Qed.

Lemma append_cons (c : ascii) (a b : string) :
  String c a ++ b = String c (a ++ b).
Proof. reflexivity. Qed.

Lemma append_nil_r (a : string) : a ++ EmptyString = a.
Proof. induction a as [|x a IH]; cbn; [reflexivity | now rewrite IH]. Qed.

(** ** Format detection *)

Lemma isUpper_bounds (c : ascii) :
  isUpper c = true <-> 65 <= nat_of_ascii c <= 90.
Proof.
  unfold isUpper. rewrite andb_true_iff, !Nat.leb_le. reflexivity.
Qed.

Lemma lowered_not_upper (c : ascii) :
  isUpper c = true -> isUpper (ascii_of_nat (nat_of_ascii c + 32)) = false.
Proof.
  intros H. apply isUpper_bounds in H.
  apply not_true_is_false. intros H'. apply isUpper_bounds in H'.
  rewrite nat_ascii_embedding in H' by lia. lia.
Qed.

Lemma lowerByte_not_upper (c : ascii) : isUpper (lowerByte c) = false.
Proof.
  unfold lowerByte. destruct (isUpper c) eqn:H; trivial.
  now apply lowered_not_upper.
Qed.

Lemma sameLetter_lowerByte (a b : ascii) :
  isUpper b = false -> sameLetter a b = Ascii.eqb (lowerByte a) b.
Proof.
  intros Hb. unfold sameLetter, lowerByte. rewrite Hb.
  destruct (isUpper a) eqn:Ha; cbn.
  - destruct (Ascii.eqb_spec a b) as [->|_]; [congruence|].
    cbn. apply orb_false_r.
  - now rewrite !orb_false_r.
Qed.

Lemma sameLetter_same_lower (a b : ascii) :
  sameLetter a b = true -> lowerByte a = lowerByte b.
Proof.
  unfold sameLetter. rewrite !orb_true_iff, !andb_true_iff.
  intros [[H|[Ha H]]|[Hb H]]; apply Ascii.eqb_eq in H.
  - now subst.
  - subst b. unfold lowerByte at 2. rewrite lowered_not_upper by trivial.
    unfold lowerByte. now rewrite Ha.
  - subst a. unfold lowerByte at 1. rewrite lowered_not_upper by trivial.
    unfold lowerByte. now rewrite Hb.
Qed.

Lemma ToLower_equalFold (s t : string) :
  noUpper t = true -> String.eqb (ToLower s) t = equalFold s t.
Proof.
  revert t. induction s as [|a s IH]; intros [|b t] H; cbn; trivial.
  cbn in H. apply andb_true_iff in H as [Hb Ht].
  apply negb_true_iff in Hb.
  rewrite sameLetter_lowerByte by trivial.
  unfold String.eqb; fold String.eqb.
  rewrite IH by trivial.
  destruct (Ascii.eqb (lowerByte a) b); reflexivity.
Qed.

Lemma equalFold_ToLower (s t : string) :
  equalFold s t = true -> ToLower s = ToLower t.
Proof.
  revert t. induction s as [|a s IH]; intros [|b t] H; cbn in *;
    try discriminate; trivial.
  apply andb_true_iff in H as [Hab H].
  f_equal; [now apply sameLetter_same_lower | now apply IH].
Qed.

Lemma determineFileFormat_fold (path : string) :
  determineFileFormat path
  = if equalFold (Ext path) ".parquet" then Parquet
    else if equalFold (Ext path) ".csv" || equalFold (Ext path) ".gz" then CSV
    else Unsupported.
Proof.
  unfold determineFileFormat. cbn zeta.
  now rewrite !ToLower_equalFold by reflexivity.
Qed.

Lemma determineFileFormat_cases (path : string) :
  determineFileFormat path = Parquet \/ determineFileFormat path = CSV
  \/ determineFileFormat path = Unsupported.
Proof.
  rewrite determineFileFormat_fold.
  destruct (equalFold (Ext path) ".parquet"); auto.
  destruct (equalFold (Ext path) ".csv" || equalFold (Ext path) ".gz"); auto.
Qed.

(** ** Quoting *)

Lemma quote_cons (f : string) : quote f = String "'" (f ++ "'").
Proof. reflexivity. Qed.

Lemma escape_length (v : string) :
  String.length v <= String.length (Spec.escape v).
Proof.
  induction v as [|c v IH]; cbn; trivial.
  destruct (Ascii.eqb c "'"); cbn; lia.
Qed.

Lemma escape_longer (v : string) :
  hasQuote v = true -> String.length v < String.length (Spec.escape v).
Proof.
  induction v as [|c v IH]; cbn; [discriminate|].
  pose proof (escape_length v).
  destruct (Ascii.eqb c "'"); cbn; intros H'; [lia|].
  apply IH in H'. lia.
Qed.

(** What the scanner consumed is the escaped form of the value it
    returns, then the closing quote. *)
Lemma scanLiteral_sound_upto (n : nat) :
  forall s v rest,
    String.length s <= n ->
    Spec.scanLiteral s = Some (v, rest) ->
    s = Spec.escape v ++ "'" ++ rest.
Proof.
  induction n as [|n IH]; intros s v rest Hn H.
  - destruct s; [discriminate | cbn in Hn; lia].
  - destruct s as [|c r]; [discriminate|]. cbn in H, Hn.
    destruct (Ascii.eqb_spec c "'") as [->|Hc].
    + destruct r as [|c2 r2].
      * injection H as <- <-. reflexivity.
      * destruct (Ascii.eqb_spec c2 "'") as [->|Hc2].
        -- destruct (Spec.scanLiteral r2) as [[v' rest']|] eqn:E;
             [|discriminate].
           injection H as <- <-. apply IH in E; [|cbn in Hn; lia].
           rewrite E. reflexivity.
        -- injection H as <- <-. reflexivity.
    + destruct (Spec.scanLiteral r) as [[v' rest']|] eqn:E; [|discriminate].
      injection H as <- <-. apply IH in E; [|lia].
      rewrite E. cbn. apply Ascii.eqb_neq in Hc. now rewrite Hc.
Qed.

Lemma scanLiteral_sound (s v rest : string) :
  Spec.scanLiteral s = Some (v, rest) -> s = Spec.escape v ++ "'" ++ rest.
Proof. apply (scanLiteral_sound_upto (String.length s)). lia. Qed.

(** A path with a quote in it is never the value of the literal its
    fragment opens. *)
Lemma quoted_not_delimited (p rest : string) :
  hasQuote p = true -> ~ Spec.delimited p rest.
Proof.
  intros Hq H. unfold Spec.delimited, Spec.sqlLiteral in H.
  rewrite quote_cons in H. cbn in H.
  apply scanLiteral_sound in H.
  rewrite append_assoc in H. apply append_inv_tail in H.
  apply escape_longer in Hq. rewrite <- H in Hq. lia.
Qed.

Lemma scanLiteral_plain (p rest : string) :
  hasQuote p = false -> plainStart rest = true ->
  Spec.scanLiteral (p ++ "'" ++ rest) = Some (p, rest).
Proof.
  intros Hp Hr. induction p as [|c p IH]; cbn in *.
  - destruct rest as [|c2 r2]; trivial.
    cbn in Hr. apply negb_true_iff in Hr. now rewrite Hr.
  - apply orb_false_iff in Hp as [Hc Hp]. rewrite Hc, (IH Hp). reflexivity.
Qed.

(** A path without a quote is correctly delimited by its fragment. *)
Lemma plain_delimited (p rest : string) :
  hasQuote p = false -> plainStart rest = true -> Spec.delimited p rest.
Proof.
  intros Hp Hr. unfold Spec.delimited, Spec.sqlLiteral.
  rewrite quote_cons. cbn. rewrite append_assoc. now apply scanLiteral_plain.
Qed.

Lemma strings_Join_cons2 (a b : string) (l : list string) (sep : string) :
  strings_Join (a :: b :: l) sep = a ++ sep ++ strings_Join (b :: l) sep.
Proof. reflexivity. Qed.

(** Every resolved file has its fragment in the joined names. *)
Lemma join_fragment (files : list string) (f : string) :
  In f files ->
  exists pre post, strings_Join (map quote files) "," = pre ++ quote f ++ post.
Proof.
  induction files as [|a rest IH]; [intros []|].
  intros [->|Hin].
  - exists EmptyString. destruct rest as [|b rest].
    + exists EmptyString. cbn. now rewrite append_nil_r.
    + exists ("," ++ strings_Join (map quote (b :: rest)) ","). reflexivity.
  - destruct rest as [|b rest]; [destruct Hin|].
    destruct (IH Hin) as (pre & post & E).
    exists (quote a ++ "," ++ pre), post.
    change (map quote (a :: b :: rest))
      with (quote a :: quote b :: map quote rest).
    rewrite strings_Join_cons2.
    change (quote b :: map quote rest) with (map quote (b :: rest)).
    rewrite E. now rewrite !append_assoc.
Qed.

(** The joined names of files without quotes read back as those files. *)
Lemma parseNames_join (files : list string) :
  files <> [] ->
  forallb (fun f => negb (hasQuote f)) files = true ->
  Spec.parseNames (List.length files) (strings_Join (map quote files) ",")
  = Some files.
Proof.
  induction files as [|f rest IH]; [congruence|]. intros _ Hall.
  cbn in Hall. apply andb_true_iff in Hall as [Hf Hrest].
  apply negb_true_iff in Hf.
  destruct rest as [|g rest].
  - pose proof (plain_delimited f EmptyString Hf eq_refl) as H.
    unfold Spec.delimited in H. rewrite append_nil_r in H.
    cbn [List.length map strings_Join Spec.parseNames]. now rewrite H.
  - change (map quote (f :: g :: rest))
      with (quote f :: quote g :: map quote rest).
    rewrite strings_Join_cons2.
    change (quote g :: map quote rest) with (map quote (g :: rest)).
    cbn [List.length Spec.parseNames].
    pose proof (plain_delimited f ("," ++ strings_Join (map quote (g :: rest)) ",")
                  Hf eq_refl) as H.
    unfold Spec.delimited in H. rewrite H. cbn.
    cbn in IH. rewrite IH; [reflexivity | congruence | exact Hrest].
Qed.

(** ** The extension of a path *)

Lemma string_snoc (s : string) (n : nat) :
  String.length s = S n ->
  exists front c, s = front ++ String c EmptyString /\ String.length front = n.
Proof.
  revert n. induction s as [|a s IH]; intros n H; [discriminate|].
  cbn in H. injection H as H. destruct s as [|b s].
  - exists EmptyString, a. cbn in H. subst. split; reflexivity.
  - destruct n as [|n]; [discriminate|].
    destruct (IH n H) as (front & c & E & L).
    exists (String a front), c. rewrite E. cbn. split; [reflexivity|].
    now rewrite L.
Qed.

Lemma get_middle (front : string) (c : ascii) (back : string) :
  String.get (String.length front) (front ++ String c back) = Some c.
Proof. induction front as [|a front IH]; cbn; trivial. Qed.

Lemma substring_all (s : string) : substring 0 (String.length s) s = s.
Proof. induction s as [|a s IH]; cbn; [reflexivity | now rewrite IH]. Qed.

Lemma substring_back (front back : string) :
  substring (String.length front) (String.length back) (front ++ back) = back.
Proof.
  induction front as [|a front IH]; cbn; [apply substring_all | exact IH].
Qed.

Lemma extLoop_shape (path : string) (n : nat) :
  forall front back,
    path = front ++ back -> String.length front = n -> plainName back = true ->
    (extLoop path n = EmptyString
     /\ exists front' back',
          path = front' ++ back' /\ plainName back' = true
          /\ (front' = EmptyString
              \/ exists d, front' = d ++ String "/" EmptyString))
    \/ (exists front' e,
          extLoop path n = String "." e /\ path = front' ++ String "." e
          /\ plainName e = true).
Proof.
  induction n as [|n IH]; intros front back E L Hp.
  - left. split; [reflexivity|]. exists front, back.
    destruct front; [auto | discriminate].
  - destruct (string_snoc front n L) as (front0 & c & -> & L0).
    rewrite append_assoc in E. cbn in E.
    assert (Hget : String.get n path = Some c)
      by (rewrite E, <- L0; apply get_middle).
    cbn [extLoop]. rewrite Hget.
    destruct (IsPathSeparator c) eqn:Hsep.
    + left. split; [reflexivity|].
      exists (front0 ++ String c EmptyString), back.
      rewrite append_assoc. cbn. split; [exact E|]. split; [exact Hp|].
      right. exists front0. unfold IsPathSeparator in Hsep.
      apply Ascii.eqb_eq in Hsep. now subst c.
    + destruct (Ascii.eqb c ".") eqn:Hdot.
      * right. apply Ascii.eqb_eq in Hdot. subst c.
        exists front0, back. split; [|split; trivial].
        rewrite E, append_length, <- L0.
        replace (String.length front0 + String.length (String "." back)
                 - String.length front0)
          with (String.length (String "." back)) by lia.
        apply substring_back.
      * apply (IH front0 (String c back) E L0).
        cbn. now rewrite Hsep, Hdot, Hp.
Qed.

(** The extension is empty, when the last element of the path has no
    dot, or it is the part of that element from its last dot on. *)
Lemma Ext_shape (path : string) :
  (Ext path = EmptyString
   /\ exists front back,
        path = front ++ back /\ plainName back = true
        /\ (front = EmptyString \/ exists d, front = d ++ String "/" EmptyString))
  \/ (exists front e,
        Ext path = String "." e /\ path = front ++ String "." e
        /\ plainName e = true).
Proof.
  apply (extLoop_shape path (String.length path) path EmptyString).
  - now rewrite append_nil_r.
  - reflexivity.
  - reflexivity.
Qed.

(** ** The database file of a staging directory *)

Lemma splitOn_cons (sep : ascii) (s : string) :
  exists p ps, splitOn sep s = p :: ps.
Proof.
  induction s as [|c s IH]; cbn; [eauto|].
  destruct (Ascii.eqb c sep); [eauto|].
  destruct IH as (p & ps & ->). eauto.
Qed.

Lemma splitOn_app_plain (e s : string) :
  noSeparator e = true ->
  splitOn "/" (e ++ s)
  = (e ++ hd EmptyString (splitOn "/" s)) :: tl (splitOn "/" s).
Proof.
  intros H. induction e as [|c e IH]; cbn in *.
  - now destruct (splitOn_cons "/" s) as (p & ps & ->).
  - apply andb_true_iff in H as [Hc He]. apply negb_true_iff in Hc.
    rewrite Hc, (IH He). reflexivity.
Qed.

Lemma splitOn_join (elems : list string) :
  elems <> [] ->
  forallb noSeparator elems = true ->
  splitOn "/" (strings_Join elems "/") = elems.
Proof.
  induction elems as [|e rest IH]; [congruence|]. intros _ H.
  cbn in H. apply andb_true_iff in H as [He Hrest].
  destruct rest as [|f rest].
  - cbn. rewrite <- (append_nil_r e) at 1.
    rewrite splitOn_app_plain by trivial. cbn. now rewrite append_nil_r.
  - change (strings_Join (e :: f :: rest) "/")
      with (e ++ String "/" (strings_Join (f :: rest) "/")).
    rewrite splitOn_app_plain by trivial.
    cbn [splitOn]. cbn [Ascii.eqb Bool.eqb]. cbn iota.
    rewrite IH by (congruence || trivial). cbn. now rewrite append_nil_r.
Qed.

Lemma cleanStep_kept (rooted : bool) (stack : list string) (e : string) :
  keptElement e = true -> cleanStep rooted stack e = e :: stack.
Proof.
  unfold keptElement, cleanStep. rewrite !andb_true_iff, !negb_true_iff.
  intros [[[_ H1] H2] H3]. now rewrite H1, H2, H3.
Qed.

Lemma fold_cleanStep_kept (rooted : bool) (elems stack : list string) :
  forallb keptElement elems = true ->
  fold_left (cleanStep rooted) elems stack = (rev elems ++ stack)%list.
Proof.
  revert stack. induction elems as [|e rest IH]; intros stack H; cbn in *.
  - reflexivity.
  - apply andb_true_iff in H as [He Hrest].
    rewrite cleanStep_kept by trivial. rewrite IH by trivial.
    now rewrite <- app_assoc.
Qed.

Lemma kept_noSeparator (elems : list string) :
  forallb keptElement elems = true -> forallb noSeparator elems = true.
Proof.
  induction elems as [|e rest IH]; cbn; trivial.
  rewrite !andb_true_iff. unfold keptElement at 1.
  rewrite !andb_true_iff. intuition.
Qed.

(** [filepath.Clean] leaves an absolute path of kept elements as it is. *)
Lemma Clean_absolute (elems : list string) :
  elems <> [] ->
  forallb keptElement elems = true ->
  Clean ("/" ++ strings_Join elems "/") = "/" ++ strings_Join elems "/".
Proof.
  intros Hne H. unfold Clean. cbn [append]. cbn [IsPathSeparator Ascii.eqb Bool.eqb].
  cbn iota zeta. cbn [splitOn Ascii.eqb Bool.eqb]. cbn iota.
  rewrite splitOn_join by (trivial || now apply kept_noSeparator).
  cbn [fold_left]. change (cleanStep true [] EmptyString) with (@nil string).
  rewrite fold_cleanStep_kept by trivial.
  now rewrite app_nil_r, rev_involutive.
Qed.

Lemma strings_Join_snoc (elems : list string) (e sep : string) :
  elems <> [] ->
  strings_Join (elems ++ [e]) sep = strings_Join elems sep ++ sep ++ e.
Proof.
  induction elems as [|a rest IH]; [congruence|]. intros _.
  destruct rest as [|b rest]; [reflexivity|].
  change ((a :: b :: rest) ++ [e])%list with (a :: (b :: rest) ++ [e])%list.
  change ((b :: rest) ++ [e])%list with (b :: (rest ++ [e]))%list.
  change (strings_Join (a :: b :: rest ++ [e]) sep)
    with (a ++ sep ++ strings_Join (b :: rest ++ [e]) sep).
  change (b :: rest ++ [e])%list with ((b :: rest) ++ [e])%list.
  rewrite IH by congruence.
  change (strings_Join (a :: b :: rest) sep)
    with (a ++ sep ++ strings_Join (b :: rest) sep).
  now rewrite !append_assoc.
Qed.

(** For a staging directory that is an absolute path of kept elements
    the database file is the directory, a separator and [tmp.duckdb]. *)
Lemma dbPath_absolute (elems : list string) :
  elems <> [] ->
  forallb keptElement elems = true ->
  let ws := "/" ++ strings_Join elems "/" in
  filepath_Join [ws; "tmp.duckdb"] = ws ++ "/tmp.duckdb".
Proof.
  intros Hne H ws. cbn [filepath_Join].
  change (String.eqb ws EmptyString) with false. cbn iota.
  change (strings_Join [ws; "tmp.duckdb"] "/") with (ws ++ "/" ++ "tmp.duckdb").
  subst ws. rewrite append_assoc.
  rewrite <- (strings_Join_snoc elems "tmp.duckdb" "/") by trivial.
  rewrite Clean_absolute.
  - rewrite strings_Join_snoc by trivial. now rewrite !append_assoc.
  - now destruct elems.
  - rewrite forallb_app, H. reflexivity.
Qed.

Arguments tick : simpl never.
Arguments emit : simpl never.
Arguments setTempDirs : simpl never.
Arguments startListener : simpl never.
Arguments determineFileFormat : simpl never.
Arguments filepath_Join : simpl never.
Arguments String.append : simpl never.
Arguments String.eqb : simpl never.
Arguments strings_Join : simpl never.


(** ** The trace under the operations on the world *)

Lemma opsOf_app (a : Actor) (t1 t2 : list Event) :
  opsOf a (t1 ++ t2)%list = (opsOf a t1 ++ opsOf a t2)%list.
Proof. unfold opsOf. apply flat_map_app. Qed.

Lemma mainOps_emit_main (o : Op) (w : World) :
  mainOps (trace (emit MainG o w)) = (mainOps (trace w) ++ [o])%list.
Proof. unfold mainOps. simpl. rewrite opsOf_app. reflexivity. Qed.

Lemma mainOps_bgStep (w : World) (b : Bg) :
  mainOps (trace (bgStep w b)) = mainOps (trace w).
Proof.
  unfold mainOps.
  destruct b as [sig|]; simpl.
  - destruct (listener w); trivial;
      destruct (sigChan w); simpl; rewrite opsOf_app; simpl; apply app_nil_r.
  - destruct (listener w); simpl; trivial.
    + destruct (sigChan w); simpl; trivial.
      rewrite opsOf_app; simpl; apply app_nil_r.
    + rewrite opsOf_app; simpl; apply app_nil_r.
Qed.

Lemma tempDirs_bgStep (w : World) (b : Bg) :
  tempDirs (bgStep w b) = tempDirs w.
Proof.
  destruct b; simpl.
  - destruct (listener w); trivial; destruct (sigChan w); reflexivity.
  - destruct (listener w); trivial. destruct (sigChan w); reflexivity.
Qed.

Lemma flag_bgStep (w : World) (b : Bg) :
  signalReceived w = true -> signalReceived (bgStep w b) = true.
Proof.
  intros H. destruct b; simpl.
  - destruct (listener w); trivial; destruct (sigChan w); exact H.
  - destruct (listener w); trivial. destruct (sigChan w); trivial.
Qed.

Lemma mainOps_bgRun (bs : list Bg) (w : World) :
  mainOps (trace (bgRun w bs)) = mainOps (trace w).
Proof.
  unfold bgRun. revert w.
  induction bs as [|b bs IH]; intros w; simpl; trivial.
  rewrite IH. apply mainOps_bgStep.
Qed.

Lemma tempDirs_bgRun (bs : list Bg) (w : World) :
  tempDirs (bgRun w bs) = tempDirs w.
Proof.
  unfold bgRun. revert w.
  induction bs as [|b bs IH]; intros w; simpl; trivial.
  rewrite IH. apply tempDirs_bgStep.
Qed.

Lemma flag_bgRun (bs : list Bg) (w : World) :
  signalReceived w = true -> signalReceived (bgRun w bs) = true.
Proof.
  unfold bgRun. revert w.
  induction bs as [|b bs IH]; intros w H; simpl; trivial.
  apply IH, flag_bgStep, H.
Qed.

Lemma mainOps_tick (env : Env) (w : World) :
  mainOps (trace (tick env w)) = mainOps (trace w).
Proof. unfold tick. simpl. apply mainOps_bgRun. Qed.

Lemma tempDirs_tick (env : Env) (w : World) :
  tempDirs (tick env w) = tempDirs w.
Proof. unfold tick. simpl. apply tempDirs_bgRun. Qed.

Lemma flag_tick (env : Env) (w : World) :
  signalReceived w = true -> signalReceived (tick env w) = true.
Proof. unfold tick. simpl. apply flag_bgRun. Qed.

Lemma mainOps_setTempDirs (ds : list string) (w : World) :
  mainOps (trace (setTempDirs ds w)) = mainOps (trace w).
Proof. reflexivity. Qed.

Lemma mainOps_startListener (w : World) :
  mainOps (trace (startListener w)) = mainOps (trace w).
Proof. reflexivity. Qed.

Lemma tempDirs_startListener (w : World) :
  tempDirs (startListener w) = tempDirs w.
Proof. reflexivity. Qed.

Lemma tempDirs_emit (a : Actor) (o : Op) (w : World) :
  tempDirs (emit a o w) = tempDirs w.
Proof. reflexivity. Qed.

Lemma flag_emit (a : Actor) (o : Op) (w : World) :
  signalReceived (emit a o w) = signalReceived w.
Proof. reflexivity. Qed.

Lemma flag_setTempDirs (ds : list string) (w : World) :
  signalReceived (setTempDirs ds w) = signalReceived w.
Proof. reflexivity. Qed.

Lemma tempDirs_setTempDirs (ds : list string) (w : World) :
  tempDirs (setTempDirs ds w) = ds.
Proof. reflexivity. Qed.

Create Rewrite HintDb world.
#[export] Hint Rewrite mainOps_emit_main mainOps_tick mainOps_setTempDirs
  mainOps_startListener tempDirs_startListener
  tempDirs_tick tempDirs_emit tempDirs_setTempDirs flag_emit flag_setTempDirs
  : world.

(** ** The functions of the program as equations *)

Section Equations.

Variable env : Env.

Lemma fileExists_eq (name : string) (w : World) :
  fileExists env name w
  = Returned (negb (IsNotExist (fsStat env name)))
             (emit MainG (CallStat name) (tick env w)).
Proof. reflexivity. Qed.

Lemma processInputFiles_eq (path : string) (format : FileFormat) (w : World) :
  processInputFiles env path format w
  = Returned
      match Spec.resolve env path format with
      | inl files => (strings_Join (map quote files) ",", None)
      | inr e => (EmptyString, Some (Spec.describe e path))
      end
      (emit MainG (Spec.resolveCall path format) (tick env w)).
Proof.
  unfold processInputFiles, Spec.resolve, Spec.resolveCall, findParquetFiles,
    filepathGlob, fileExists, osStat, bind, op, ret.
  destruct (String.eqb format Parquet).
  - destruct (fsGlob env path) as [[|f fs]|]; reflexivity.
  - destruct (fsStat env path) as [[]|]; reflexivity.
Qed.

Lemma createTemporaryTable_eq (names ws : string) (format : FileFormat)
    (strict : bool) (w : World) :
  createTemporaryTable env names ws format strict w
  = match loadQuery names format strict with
    | None => Returned (Some ("unsupported file format: " ++ format)) w
    | Some q => Returned (loadError (procRun env (Spec.loadArgs ws q)))
                  (emit MainG (CallRun (Spec.loadArgs ws q)) (tick env w))
    end.
Proof.
  unfold createTemporaryTable, executeCommand, cmdRun, bind, op, ret,
    Spec.loadArgs, Spec.dbPath.
  destruct (loadQuery names format strict) as [q|]; trivial.
  destruct (procRun env _); reflexivity.
Qed.

End Equations.

(** One step of evaluation of the run: the combinators and the small
    functions are unfolded, the world is left as it is. *)
Ltac step :=
  cbv beta iota zeta delta
    [bind defer when ret op osExit exitWithError createTempDirectory
     osMkdirTemp osRemoveAll executeCommand cmdRun setupSignalHandler
     signalCleanup loadSignalReceived isErr errText loadError fst snd outcomeWorld
     exitStatus].

Ltac finish :=
  cbn; autorewrite with world; cbn; try rewrite String.eqb_refl; auto.

(** The run against the script: the main goroutine performs the
    operations of the script and then, when the body was completed, the
    final check of the flag; the status is 1 after a fatal error and
    otherwise 130 or 0 by the flag. *)
Lemma runCommand_script (env : Env) (path : string) (strict : bool) :
  let r := runCommand env path strict initWorld in
  let w := outcomeWorld r in
  match snd (Spec.script env path strict) with
  | Spec.Completed =>
      mainOps (trace w)
      = (fst (Spec.script env path strict)
           ++ LoadFlag :: (if signalReceived w then [Spec.cleanupLine] else []))%list
      /\ exitStatus r = (if signalReceived w then 130 else 0)%Z
      /\ tempDirs w = []
  | st =>
      mainOps (trace w) = fst (Spec.script env path strict)
      /\ exitStatus r = 1%Z
      /\ tempDirs w = stagedAfter env st
  end.
Proof.
  unfold stagedAfter, Spec.script, runCommand. cbn zeta.
  unfold Unsupported.
  destruct (String.eqb (determineFileFormat path) EmptyString) eqn:Hfmt.
  { step. finish. }
  destruct (fsMkdirTemp env EmptyString "dpi") as [ws|e] eqn:Hmk.
  2:{ step. rewrite Hmk. step. finish. }
  step. rewrite Hmk. step. rewrite processInputFiles_eq.
  destruct (Spec.resolve env path (determineFileFormat path))
    as [files|e] eqn:Hres.
  2:{ step. finish. }
  step. rewrite createTemporaryTable_eq.
  destruct (loadQuery _ _ strict) as [q|] eqn:Hq.
  2:{ step. finish. }
  destruct (procRun env (Spec.loadArgs ws q)) as [e|] eqn:Hload.
  { step. finish. }
  step. fold (Spec.dbPath ws). fold (Spec.shellArgs ws).
  destruct (procRun env (Spec.shellArgs ws)) as [e|] eqn:Hsh.
  { step. finish. }
  step. autorewrite with world.
  match goal with
  | |- context [if signalReceived ?x then _ else _] =>
      destruct (signalReceived x) eqn:Hflag
  end.
  - step. autorewrite with world. rewrite flag_tick.
    + finish.
    + autorewrite with world. exact Hflag.
  - step. autorewrite with world. rewrite Hflag. finish.
Qed.

(** ** Properties of the world kept by every run *)

Section Invariant.

Variable P : World -> Prop.
Hypothesis P_bg : forall w b, P w -> P (bgStep w b).
Hypothesis P_main : forall w o, o <> StoreFlag -> P w -> P (emit MainG o w).
Hypothesis P_dirs : forall w ds, P w -> P (setTempDirs ds w).
Hypothesis P_adv : forall w, P w -> P (advance w).

Variable env : Env.

Lemma bgRun_keeps (bs : list Bg) (w : World) : P w -> P (bgRun w bs).
Proof.
  unfold bgRun. revert w.
  induction bs as [|b bs IH]; intros w H; cbn; auto.
Qed.

Lemma tick_keeps (w : World) : P w -> P (tick env w).
Proof. intros H. unfold tick. now apply P_adv, bgRun_keeps. Qed.

Lemma preserves_ret {A} (a : A) : preserves P (ret a).
Proof. intros w H. exact H. Qed.

Lemma preserves_osExit (code : Z) : preserves P (osExit code).
Proof. intros w H. exact H. Qed.

Lemma preserves_op (o : Op) : o <> StoreFlag -> preserves P (op env o).
Proof. intros Ho w H. cbn. now apply P_main, tick_keeps. Qed.

Lemma preserves_bind {A B} (m : Go A) (k : A -> Go B) :
  preserves P m -> (forall a, preserves P (k a)) -> preserves P (bind m k).
Proof.
  intros Hm Hk w H. unfold bind. specialize (Hm w H).
  destruct (m w) as [a w'|c w']; cbn in *; auto. now apply Hk.
Qed.

Lemma preserves_when (c : bool) (m : Go unit) :
  preserves P m -> preserves P (when c m).
Proof. intros Hm. destruct c; cbn; [exact Hm | apply preserves_ret]. Qed.

Lemma preserves_defer {A} (d : Go unit) (body : Go A) :
  preserves P d -> preserves P body -> preserves P (defer d body).
Proof.
  intros Hd Hb w H. unfold defer. specialize (Hb w H).
  destruct (body w) as [a w'|c w']; cbn in *; auto.
  specialize (Hd w' Hb). destruct (d w'); exact Hd.
Qed.

Lemma preserves_read {A} (f : World -> A) :
  preserves P (fun w => Returned (f w) w).
Proof. intros w H. exact H. Qed.

Lemma preserves_setTempDirs {A} (a : A) (f : World -> list string) :
  preserves P (fun w => Returned a (setTempDirs (f w) w)).
Proof. intros w H. cbn. now apply P_dirs. Qed.

Ltac keeps :=
  repeat first
    [ apply preserves_ret
    | apply preserves_osExit
    | apply preserves_op; discriminate
    | apply preserves_read
    | apply preserves_setTempDirs
    | apply preserves_when
    | apply preserves_defer
    | apply preserves_bind; [|intros ?]
    | match goal with
      | |- preserves _ (match ?x with _ => _ end) => destruct x
      | |- preserves _ (let _ := _ in _) => cbv zeta
      end ].

Lemma processInputFiles_keeps (path : string) (format : FileFormat) :
  preserves P (processInputFiles env path format).
Proof.
  unfold processInputFiles, findParquetFiles, filepathGlob, fileExists, osStat.
  keeps.
Qed.

Lemma createTemporaryTable_keeps (names ws : string) (format : FileFormat)
    (strict : bool) :
  preserves P (createTemporaryTable env names ws format strict).
Proof.
  unfold createTemporaryTable, executeCommand, cmdRun. keeps.
Qed.

(** A property that holds once the listener is started holds when the
    run ends. *)
Lemma runCommand_keeps (path : string) (strict : bool) (w : World) :
  P (startListener w) -> P (outcomeWorld (runCommand env path strict w)).
Proof.
  unfold runCommand, setupSignalHandler. unfold bind at 1. cbv beta iota.
  generalize (startListener w). clear w.
  match goal with
  | |- forall v, P v -> P (outcomeWorld (?body v)) => change (preserves P body)
  end.
  unfold signalCleanup, loadSignalReceived, exitWithError,
    createTempDirectory, osMkdirTemp, osRemoveAll, executeCommand, cmdRun.
  keeps; try apply processInputFiles_keeps; try apply createTemporaryTable_keeps;
    keeps.
Qed.

End Invariant.

(** ** The listener and the flag *)

Lemma opsOf_emit_same (a : Actor) (o : Op) (w : World) :
  opsOf a (trace (emit a o w)) = (opsOf a (trace w) ++ [o])%list.
Proof. unfold emit. cbn [trace]. rewrite opsOf_app. destruct a; reflexivity. Qed.

Lemma opsOf_emit_other (a b : Actor) (o : Op) (w : World) :
  a <> b -> opsOf a (trace (emit b o w)) = opsOf a (trace w).
Proof.
  intros H. unfold emit. cbn [trace]. rewrite opsOf_app.
  destruct a, b; try congruence; cbn; apply app_nil_r.
Qed.

Lemma arrivals_emit_deliver (sig : Signal) (w : World) :
  arrivals (trace (emit RuntimeG (Deliver sig) w))
  = (arrivals (trace w) ++ [sig])%list.
Proof.
  unfold arrivals. rewrite opsOf_emit_same, flat_map_app. reflexivity.
Qed.

Lemma arrivals_emit_other (a : Actor) (o : Op) (w : World) :
  a <> RuntimeG -> arrivals (trace (emit a o w)) = arrivals (trace w).
Proof.
  intros H. unfold arrivals. rewrite opsOf_emit_other; congruence.
Qed.

Lemma firstArrival_deliver (sig : Signal) (w : World) :
  firstArrival (trace (emit RuntimeG (Deliver sig) w))
  = match firstArrival (trace w) with
    | Some first => Some first
    | None => Some sig
    end.
Proof.
  unfold firstArrival. rewrite arrivals_emit_deliver.
  destruct (arrivals (trace w)); reflexivity.
Qed.

Lemma firstArrival_emit_other (a : Actor) (o : Op) (w : World) :
  a <> RuntimeG -> firstArrival (trace (emit a o w)) = firstArrival (trace w).
Proof. intros H. unfold firstArrival. now rewrite arrivals_emit_other. Qed.

Lemma listener_emit (a : Actor) (o : Op) (w : World) :
  listener (emit a o w) = listener w.
Proof. reflexivity. Qed.

Lemma sigChan_emit (a : Actor) (o : Op) (w : World) :
  sigChan (emit a o w) = sigChan w.
Proof. reflexivity. Qed.

Lemma listenerInv_bgStep (w : World) (b : Bg) :
  listenerInv w -> listenerInv (bgStep w b).
Proof.
  unfold listenerInv, listenerOps. destruct b as [sig|]; unfold bgStep.
  - assert (Hl : forall v, opsOf ListenerG (trace (emit RuntimeG (Deliver sig) v))
                           = opsOf ListenerG (trace v))
      by (intros v; apply opsOf_emit_other; discriminate).
    pose proof (firstArrival_deliver sig w) as Hf.
    destruct (listener w) eqn:El; [intros []| | |].
    + intros (Hflag & Hops & Hchan).
      destruct (sigChan w) eqn:Ec; cbn -[opsOf firstArrival];
        rewrite ?listener_emit, ?sigChan_emit, ?flag_emit, El, Hl, Hf, <- Hchan;
        auto.
    + intros (Hflag & Hops & Hfirst).
      destruct (sigChan w); cbn -[opsOf firstArrival];
        rewrite ?listener_emit, ?sigChan_emit, ?flag_emit, El, Hl, Hf, Hfirst;
        auto.
    + intros (Hflag & s & Hops & Hfirst).
      destruct (sigChan w); cbn -[opsOf firstArrival];
        rewrite ?listener_emit, ?sigChan_emit, ?flag_emit, El;
        (split; [exact Hflag|]); exists s; rewrite Hl, Hf, Hfirst; auto.
  - destruct (listener w) eqn:El; [intros []| | |].
    + intros (Hflag & Hops & Hchan).
      destruct (sigChan w) as [sig|] eqn:Ec; cbn -[opsOf firstArrival].
      * rewrite opsOf_emit_same, Hops.
        rewrite firstArrival_emit_other by discriminate. auto.
      * rewrite El, Ec. auto.
    + intros (Hflag & Hops & Hfirst). cbn -[opsOf firstArrival].
      rewrite flag_emit. split; [exact Hflag|]. exists sig.
      rewrite opsOf_emit_same, Hops.
      rewrite firstArrival_emit_other by discriminate. auto.
    + rewrite El. auto.
Qed.

Lemma listenerInv_emit_main (w : World) (o : Op) :
  listenerInv w -> listenerInv (emit MainG o w).
Proof.
  unfold listenerInv, listenerOps.
  change (listener (emit MainG o w)) with (listener w).
  change (signalReceived (emit MainG o w)) with (signalReceived w).
  change (sigChan (emit MainG o w)) with (sigChan w).
  rewrite opsOf_emit_other by discriminate.
  rewrite firstArrival_emit_other by discriminate. trivial.
Qed.

Lemma flagInv_bgStep (w : World) (b : Bg) : flagInv w -> flagInv (bgStep w b).
Proof.
  intros [H1 H2]. split; [now apply listenerInv_bgStep|].
  now rewrite mainOps_bgStep.
Qed.

Lemma flagInv_emit_main (w : World) (o : Op) :
  o <> StoreFlag -> flagInv w -> flagInv (emit MainG o w).
Proof.
  intros Ho [H1 H2]. split; [now apply listenerInv_emit_main|].
  rewrite mainOps_emit_main, in_app_iff. cbn. intuition congruence.
Qed.

Lemma flagInv_start : flagInv (startListener initWorld).
Proof. repeat split; auto. Qed.

Lemma flagInv_run (env : Env) (path : string) (strict : bool) :
  flagInv (outcomeWorld (runCommand env path strict initWorld)).
Proof.
  apply (runCommand_keeps flagInv); auto using flagInv_bgStep, flagInv_emit_main,
    flagInv_start.
Qed.

Lemma storeCount_flag (w : World) :
  flagInv w -> storeCount (trace w) = if signalReceived w then 1 else 0.
Proof.
  intros [Hl Hm]. unfold storeCount. rewrite filter_app, length_app.
  assert (Hz : List.length
                 (filter (fun o => match o with StoreFlag => true | _ => false end)
                         (opsOf MainG (trace w))) = 0).
  { fold (mainOps (trace w)).
    induction (mainOps (trace w)) as [|o ops IH]; cbn; trivial.
    destruct o; cbn; try (apply IH; intros H; apply Hm; now right).
    exfalso. apply Hm. now left. }
  rewrite Hz, Nat.add_0_r. unfold listenerInv, listenerOps in Hl.
  destruct (listener w).
  - destruct Hl.
  - destruct Hl as (-> & -> & _). reflexivity.
  - destruct Hl as (-> & -> & _). reflexivity.
  - destruct Hl as (-> & s & -> & _). reflexivity.
Qed.

(** ** What the listener has done by the end of a run *)

Lemma firstSignal_snoc (bs : list Bg) (b : Bg) :
  firstSignal (bs ++ [b])%list
  = match firstSignal bs, b with
    | None, Arrive sig => Some (sig, 0)
    | None, Sched => None
    | Some (sig, k), Arrive _ => Some (sig, k)
    | Some (sig, k), Sched => Some (sig, S k)
    end.
Proof.
  induction bs as [|a bs IH].
  - destruct b; reflexivity.
  - destruct a as [sig|]; cbn [app firstSignal]; [|exact IH].
    rewrite filter_app, length_app. destruct b; cbn; f_equal; f_equal; lia.
Qed.

Lemma listenerOps_emit_runtime (o : Op) (w : World) :
  listenerOps (trace (emit RuntimeG o w)) = listenerOps (trace w).
Proof. apply opsOf_emit_other. discriminate. Qed.

Lemma listenerOps_emit_listener (o : Op) (w : World) :
  listenerOps (trace (emit ListenerG o w)) = (listenerOps (trace w) ++ [o])%list.
Proof. apply opsOf_emit_same. Qed.

Lemma listenerOps_emit_main (o : Op) (w : World) :
  listenerOps (trace (emit MainG o w)) = listenerOps (trace w).
Proof. apply opsOf_emit_other. discriminate. Qed.

(** One background event moves the listener as [listenerShape] says. *)
Lemma listenerShape_bgStep (bs : list Bg) (b : Bg) (w : World) :
  listenerShape bs w -> listenerShape (bs ++ [b]) (bgStep w b).
Proof.
  unfold listenerShape. rewrite firstSignal_snoc.
  destruct (firstSignal bs) as [[sig [|[|k]]]|]; destruct b as [sig'|];
    unfold bgStep.
  - intros (Hl & Hc & Hf & Ho). rewrite Hl, Hc.
    cbn -[listenerOps]. rewrite listenerOps_emit_runtime. auto.
  - intros (Hl & Hc & Hf & Ho). rewrite Hl, Hc.
    cbn -[listenerOps]. rewrite listenerOps_emit_listener, Ho. auto.
  - intros (Hl & Hf & Ho). rewrite Hl.
    destruct (sigChan w); cbn -[listenerOps];
      rewrite ?listener_emit, ?flag_emit, listenerOps_emit_runtime; auto.
  - intros (Hl & Hf & Ho). rewrite Hl.
    cbn -[listenerOps]. rewrite flag_emit, listenerOps_emit_listener, Ho. auto.
  - intros (Hl & Hf & Ho). rewrite Hl.
    destruct (sigChan w); cbn -[listenerOps];
      rewrite ?listener_emit, ?flag_emit, listenerOps_emit_runtime; auto.
  - intros (Hl & Hf & Ho). rewrite Hl. auto.
  - intros (Hl & Hc & Hf & Ho). rewrite Hl, Hc.
    cbn -[listenerOps]. rewrite listenerOps_emit_runtime. auto.
  - intros (Hl & Hc & Hf & Ho). rewrite Hl, Hc. auto.
Qed.

Lemma listenerShape_bgRun (more : list Bg) :
  forall bs w,
    listenerShape bs w -> listenerShape (bs ++ more) (bgRun w more).
Proof.
  unfold bgRun. induction more as [|b more IH]; intros bs w H; cbn.
  - now rewrite app_nil_r.
  - replace (bs ++ b :: more)%list with ((bs ++ [b]) ++ more)%list
      by (now rewrite <- app_assoc).
    apply IH. now apply listenerShape_bgStep.
Qed.

Lemma clock_bgStep (w : World) (b : Bg) : clock (bgStep w b) = clock w.
Proof.
  destruct b; cbn.
  - destruct (listener w); trivial; destruct (sigChan w); reflexivity.
  - destruct (listener w); trivial. destruct (sigChan w); reflexivity.
Qed.

Lemma clock_bgRun (bs : list Bg) (w : World) : clock (bgRun w bs) = clock w.
Proof.
  unfold bgRun. revert w.
  induction bs as [|b bs IH]; intros w; cbn; trivial.
  rewrite IH. apply clock_bgStep.
Qed.

Lemma onSchedule_tick (env : Env) (w : World) :
  onSchedule env w -> onSchedule env (tick env w).
Proof.
  unfold onSchedule, tick. intros H.
  apply (listenerShape_bgRun (background env (clock w))) in H.
  change (clock (advance (bgRun w (background env (clock w)))))
    with (S (clock (bgRun w (background env (clock w))))).
  rewrite clock_bgRun. cbn [processed]. exact H.
Qed.

Lemma onSchedule_emit_main (env : Env) (w : World) (o : Op) :
  onSchedule env w -> onSchedule env (emit MainG o w).
Proof.
  unfold onSchedule, listenerShape.
  change (clock (emit MainG o w)) with (clock w).
  rewrite listener_emit, sigChan_emit, flag_emit, listenerOps_emit_main.
  trivial.
Qed.

Section TickInvariant.

Variable env : Env.
Variable P : World -> Prop.
Hypothesis P_tick : forall w, P w -> P (tick env w).
Hypothesis P_main : forall w o, P w -> P (emit MainG o w).
Hypothesis P_dirs : forall w ds, P w -> P (setTempDirs ds w).

Lemma preserves_op_tick (o : Op) : preserves P (op env o).
Proof. intros w H. cbn. now apply P_main, P_tick. Qed.

Ltac keeps_tick :=
  repeat first
    [ apply preserves_ret
    | apply preserves_osExit
    | apply preserves_op_tick
    | apply preserves_read
    | apply (preserves_setTempDirs P P_dirs)
    | apply preserves_when
    | apply preserves_defer
    | apply preserves_bind; [|intros ?]
    | match goal with
      | |- preserves _ (match ?x with _ => _ end) => destruct x
      | |- preserves _ (let _ := _ in _) => cbv zeta
      end ].

Lemma runCommand_keeps_tick (path : string) (strict : bool) (w : World) :
  P (startListener w) -> P (outcomeWorld (runCommand env path strict w)).
Proof.
  unfold runCommand, setupSignalHandler. unfold bind at 1. cbv beta iota.
  generalize (startListener w). clear w.
  match goal with
  | |- forall v, P v -> P (outcomeWorld (?body v)) => change (preserves P body)
  end.
  unfold signalCleanup, loadSignalReceived, exitWithError,
    createTempDirectory, osMkdirTemp, osRemoveAll, processInputFiles,
    findParquetFiles, filepathGlob, fileExists, osStat, createTemporaryTable,
    executeCommand, cmdRun.
  keeps_tick.
Qed.

End TickInvariant.

Lemma onSchedule_run (env : Env) (path : string) (strict : bool) :
  onSchedule env (outcomeWorld (runCommand env path strict initWorld)).
Proof.
  apply (runCommand_keeps_tick env (onSchedule env)).
  - apply onSchedule_tick.
  - intros w o. apply onSchedule_emit_main.
  - intros w ds H. exact H.
  - repeat split.
Qed.

(* ===================================================================== *)
(** * The claims                                                          *)
(* ===================================================================== *)

(** ** Format detection *)

Example determineFileFormat_examples :
  map determineFileFormat
      ["data.parquet"; "DATA.PARQUET"; "a.b/x.Csv"; "logs.tar.GZ"; ".csv";
       "notes.txt"; "parquet"; "dir.csv/file"; "x.parquet.bak"]
  = [Parquet; Parquet; CSV; CSV; CSV;
     Unsupported; Unsupported; Unsupported; Unsupported].
Proof. reflexivity. Qed.

(** C4.  Format detection is a function of the extension of the path and
    ignores its case: an extension that is [.parquet] up to case gives
    the Parquet format, one that is [.csv] or [.gz] up to case gives the
    CSV format, every other extension gives the unsupported value; two
    paths whose extensions agree up to case get the same format; the
    extension is empty or the part of the last path element from its
    last dot on; and the caller ends a run on an unsupported path with an
    error line and status 1, before anything else is done. *)
Theorem format_detection_by_extension (path : string) :
  determineFileFormat path
  = (if equalFold (Ext path) ".parquet" then Parquet
     else if equalFold (Ext path) ".csv" || equalFold (Ext path) ".gz" then CSV
     else Unsupported)
  /\ (forall other,
        equalFold (Ext other) (Ext path) = true ->
        determineFileFormat other = determineFileFormat path)
  /\ (Ext path = EmptyString
      \/ exists front e,
           Ext path = String "." e /\ path = front ++ String "." e
           /\ plainName e = true)
  /\ (forall env strict,
        determineFileFormat path = Unsupported ->
        let r := runCommand env path strict initWorld in
        exitStatus r = 1%Z
        /\ mainOps (trace (outcomeWorld r))
           = [Spec.setupLine;
              Spec.errLine ("Unsupported file format for file: " ++ path)]
        /\ tempDirs (outcomeWorld r) = []).
Proof.
  split; [apply determineFileFormat_fold|]. split.
  - intros other H. unfold determineFileFormat. cbn zeta.
    now rewrite (equalFold_ToLower _ _ H).
  - split; [destruct (Ext_shape path) as [[H _]|H]; auto|].
    intros env strict H r.
    pose proof (runCommand_script env path strict) as S.
    unfold Spec.script, stagedAfter in S. cbn zeta in S.
    rewrite H, String.eqb_refl in S. cbn in S. subst r. tauto.
Qed.

(** ** Resolution *)

Example processInputFiles_examples :
  map (fun a => returned (processInputFiles envQuiet (fst a) (snd a) initWorld))
      [("*.parquet", Parquet); ("none*.parquet", Parquet);
       ("[.parquet", Parquet); ("data.csv", CSV); ("missing.csv", CSV);
       ("locked/data.csv", CSV)]
  = [Some ("'data.parquet'", None);
     Some (EmptyString,
           Some "no Parquet files found matching pattern: none*.parquet");
     Some (EmptyString,
           Some "invalid file pattern '[.parquet': syntax error in pattern");
     Some ("'data.csv'", None);
     Some (EmptyString, Some "file does not exist: missing.csv");
     Some ("'locked/data.csv'", None)].
Proof. reflexivity. Qed.

(** C5.  For the Parquet format resolution expands the pattern once.  An
    invalid pattern gives the bad-pattern error and a pattern without a
    match the no-match error.  Matches give the fragments of exactly
    those files, each in single quotes, joined by commas in the order of
    expansion: fragment number [i] is the quoted match number [i], the
    joined names are not empty, and when no match has a quote in its
    name they read back as the list of matches. *)
Theorem parquet_resolution (env : Env) (pattern : string) (w : World) :
  exists w',
    processInputFiles env pattern Parquet w
    = Returned
        match fsGlob env pattern with
        | None =>
            (EmptyString,
             Some ("invalid file pattern '" ++ pattern
                     ++ "': syntax error in pattern"))
        | Some [] =>
            (EmptyString,
             Some ("no Parquet files found matching pattern: " ++ pattern))
        | Some files => (strings_Join (map quote files) ",", None)
        end
        w'
    /\ mainOps (trace w') = (mainOps (trace w) ++ [CallGlob pattern])%list
    /\ (forall files,
          fsGlob env pattern = Some files -> files <> [] ->
          (forall i, nth_error (map quote files) i
                     = option_map quote (nth_error files i))
          /\ List.length (map quote files) = List.length files
          /\ strings_Join (map quote files) "," <> EmptyString
          /\ (forallb (fun f => negb (hasQuote f)) files = true ->
              Spec.parseNames (List.length files)
                              (strings_Join (map quote files) ",")
              = Some files)).
Proof.
  exists (emit MainG (CallGlob pattern) (tick env w)).
  split; [|split].
  - rewrite processInputFiles_eq. unfold Spec.resolve.
    rewrite String.eqb_refl.
    destruct (fsGlob env pattern) as [[|f fs]|]; reflexivity.
  - now autorewrite with world.
  - intros files _ Hne. repeat split.
    + intros i. apply nth_error_map.
    + apply length_map.
    + destruct files as [|f [|g fs]]; [congruence| |]; discriminate.
    + now apply parseNames_join.
Qed.

(** C6.  For the CSV format resolution asks for the status of the path
    as it is given, once, and expands nothing.  A path that exists gives
    the path between two single quotes, which for a path without a quote
    reads back as the one-element set of that path; a path that does not
    exist gives the not-found error. *)
Theorem delimited_resolution (env : Env) (path : string) (w : World) :
  exists w',
    mainOps (trace w') = (mainOps (trace w) ++ [CallStat path])%list
    /\ (fsStat env path = None ->
        processInputFiles env path CSV w
        = Returned (String "'" (path ++ String "'" EmptyString), None) w'
        /\ (hasQuote path = false ->
            Spec.parseNames 1 (String "'" (path ++ String "'" EmptyString))
            = Some [path]))
    /\ (fsStat env path = Some ENOENT ->
        processInputFiles env path CSV w
        = Returned (EmptyString, Some ("file does not exist: " ++ path)) w').
Proof.
  exists (emit MainG (CallStat path) (tick env w)).
  split; [now autorewrite with world|].
  split; intros H; rewrite processInputFiles_eq; unfold Spec.resolve;
    change (String.eqb CSV Parquet) with false; cbn iota; rewrite H.
  - split; [reflexivity|]. intros Hq.
    apply (parseNames_join [path]); [discriminate|].
    cbn. now rewrite Hq.
  - reflexivity.
Qed.

(** C10.  The existence check answers "no" exactly when the status call
    fails with the does-not-exist error.  So for the CSV format the
    not-found error is produced exactly in that case, and a path whose
    status cannot be read for another reason (permission denied, say) is
    resolved as if it existed. *)
Theorem existence_check_only_not_exist (env : Env) (path : string) (w : World) :
  (returned (fileExists env path w) = Some false
   <-> fsStat env path = Some ENOENT)
  /\ (returned (processInputFiles env path CSV w)
      = Some (EmptyString, Some ("file does not exist: " ++ path))
      <-> fsStat env path = Some ENOENT)
  /\ (fsStat env path <> Some ENOENT ->
      returned (fileExists env path w) = Some true
      /\ returned (processInputFiles env path CSV w) = Some (quote path, None)).
Proof.
  rewrite fileExists_eq, processInputFiles_eq. unfold Spec.resolve.
  change (String.eqb CSV Parquet) with false. cbn iota.
  destruct (fsStat env path) as [[]|]; cbn;
    repeat split; intros; try congruence; try discriminate.
Qed.

(** ** Materialization *)

Example filepath_Join_examples :
  map filepath_Join
      [["/tmp/dpi2063142327"; "tmp.duckdb"]; ["/var//tmp/./dpi1/"; "tmp.duckdb"];
       ["work/../tmp/dpi1"; "tmp.duckdb"]; [EmptyString; "tmp.duckdb"]]
  = ["/tmp/dpi2063142327/tmp.duckdb"; "/var/tmp/dpi1/tmp.duckdb";
     "tmp/dpi1/tmp.duckdb"; "tmp.duckdb"].
Proof. reflexivity. Qed.

Lemma runCalls_app (a b : list Op) :
  runCalls (a ++ b)%list = (runCalls a ++ runCalls b)%list.
Proof. apply flat_map_app. Qed.

(** C7.  In a run that reaches materialization (a supported format, a
    staging directory [ws], a resolved file set), exactly one load
    statement is built: [read_parquet] over the bracketed names for the
    Parquet format, [read_csv] with the [strict_mode] option for the CSV
    format, on the table [p].  It is run by one subprocess,
    [duckdb <ws>/tmp.duckdb -c <statement>], where the database file is
    [filepath.Join(ws, "tmp.duckdb")], which for an absolute staging
    directory in clean form is [ws], a separator and [tmp.duckdb].  When
    that subprocess fails
    it is the only subprocess of the run, which ends with status 1 and
    the load error; when it succeeds the only other subprocess is the
    interactive session on the same database file. *)
Theorem materialization_runs_once (env : Env) (path : string) (strict : bool)
    (ws : string) (files : list string) :
  determineFileFormat path <> Unsupported ->
  fsMkdirTemp env EmptyString "dpi" = inl ws ->
  Spec.resolve env path (determineFileFormat path) = inl files ->
  let names := strings_Join (map quote files) "," in
  let statement :=
    if String.eqb (determineFileFormat path) Parquet
    then "CREATE TABLE p AS SELECT * FROM read_parquet([" ++ names ++ "]);"
    else "CREATE TABLE p AS SELECT * FROM read_csv(" ++ names
           ++ ", strict_mode=" ++ (if strict then "true" else "false") ++ ");" in
  let database := filepath_Join [ws; "tmp.duckdb"] in
  let load := ["duckdb"; database; "-c"; statement] in
  let r := runCommand env path strict initWorld in
  let ops := mainOps (trace (outcomeWorld r)) in
  loadQuery names (determineFileFormat path) strict = Some statement
  /\ (forall elems,
        elems <> [] -> forallb keptElement elems = true ->
        ws = "/" ++ strings_Join elems "/" -> database = ws ++ "/tmp.duckdb")
  /\ (forall w, exists w',
        createTemporaryTable env names ws (determineFileFormat path) strict w
        = Returned (loadError (procRun env load)) w'
        /\ mainOps (trace w') = (mainOps (trace w) ++ [CallRun load])%list)
  /\ match procRun env load with
     | Some e =>
         runCalls ops = [load] /\ exitStatus r = 1%Z
         /\ last ops Spec.setupLine
            = Spec.errLine ("Creating temporary table failed: "
                              ++ "failed to create temporary table: " ++ e)
     | None => runCalls ops = [load; ["duckdb"; database]]
     end.
Proof.
  intros Hfmt Hmk Hres names statement database load r ops.
  assert (Hq : loadQuery names (determineFileFormat path) strict
               = Some statement).
  { subst statement. unfold loadQuery.
    destruct (determineFileFormat_cases path) as [H|[H|H]]; [| |congruence];
      rewrite H; destruct strict; reflexivity. }
  split; [exact Hq|]. split.
  { intros elems Hne Hk ->. now apply dbPath_absolute. }
  split.
  - intros w. rewrite createTemporaryTable_eq, Hq.
    eexists. split; [reflexivity|]. now autorewrite with world.
  - pose proof (runCommand_script env path strict) as S.
    unfold Spec.script, stagedAfter in S. cbn zeta in S.
    apply String.eqb_neq in Hfmt. rewrite Hfmt, Hmk, Hres in S.
    fold names in S. rewrite Hq in S.
    change (Spec.loadArgs ws statement) with load in S.
    fold r in S. fold ops in S.
    assert (Hcall : runCalls [Spec.resolveCall path (determineFileFormat path)]
                    = []).
    { unfold Spec.resolveCall.
      now destruct (String.eqb (determineFileFormat path) Parquet). }
    destruct (procRun env load) as [e|] eqn:Hload.
    + cbn [snd fst] in S. destruct S as (Hops & Hst & _).
      split; [|split]; trivial.
      * rewrite Hops, !runCalls_app.
        change (runCalls [Spec.usingLine ws;
                          Spec.resolveCall path (determineFileFormat path)])
          with (runCalls [Spec.resolveCall path (determineFileFormat path)]).
        rewrite Hcall. reflexivity.
      * rewrite Hops. apply last_last.
    + destruct (procRun env (Spec.shellArgs ws)) as [e|] eqn:Hsh;
        cbn [snd fst] in S; destruct S as (Hops & _);
        rewrite Hops, !runCalls_app;
        change (runCalls [Spec.usingLine ws;
                          Spec.resolveCall path (determineFileFormat path)])
          with (runCalls [Spec.resolveCall path (determineFileFormat path)]);
        rewrite Hcall; [reflexivity|].
      now destruct (signalReceived (outcomeWorld r)).
Qed.

Lemma materialization_runs_once_witness :
  let load := ["duckdb"; "/tmp/dpi2063142327/tmp.duckdb"; "-c";
               "CREATE TABLE p AS SELECT * FROM read_parquet(['data.parquet']);"] in
  loadQuery "'data.parquet'" Parquet false = Some (nth 3 load EmptyString)
  /\ runCalls (mainOps (trace (outcomeWorld
                 (runCommand envBadLoad "data.parquet" false initWorld))))
     = [load]
  /\ exitStatus (runCommand envBadLoad "data.parquet" false initWorld) = 1%Z.
Proof.
  pose proof (materialization_runs_once envBadLoad "data.parquet" false
                "/tmp/dpi2063142327" ["data.parquet"]) as H.
  cbv zeta in H.
  specialize (H ltac:(vm_compute; discriminate) eq_refl eq_refl).
  destruct H as (Hq & _ & _ & Hrun).
  cbv zeta. split; [exact Hq|].
  vm_compute in Hrun. vm_compute. tauto.
Defined.

(** ** Quoting *)

Lemma loadQuery_around (names : string) (format : FileFormat) (strict : bool)
    (q : string) :
  loadQuery names format strict = Some q ->
  exists before after, q = before ++ names ++ after.
Proof.
  unfold loadQuery. intros H.
  destruct (String.eqb format Parquet).
  - injection H as <-.
    exists ("CREATE TABLE " ++ TableName ++ " AS SELECT * FROM read_parquet(["),
           "]);".
    reflexivity.
  - destruct (String.eqb format CSV); [|discriminate].
    injection H as <-.
    exists ("CREATE TABLE " ++ TableName ++ " AS SELECT * FROM read_csv("),
           (", strict_mode=" ++ fmtBool strict ++ ");").
    reflexivity.
Qed.

(** C9.  Resolution writes the fragment of a path as a quote, the path
    as it is, and a quote.  So for a resolved path [p] that has a quote
    in its name, the names handed to materialization hold the fragment
    of [p], and so does the load statement built from them, but at no
    place where the fragment stands does it read as a literal with the
    value [p] that ends where the fragment ends. *)
Theorem quoting_is_verbatim (env : Env) (path : string) (format : FileFormat)
    (strict : bool) (files : list string) (p : string) (w : World) :
  Spec.resolve env path format = inl files ->
  In p files ->
  hasQuote p = true ->
  let names := strings_Join (map quote files) "," in
  quote p = "'" ++ p ++ "'"
  /\ returned (processInputFiles env path format w) = Some (names, None)
  /\ (exists pre post, names = pre ++ quote p ++ post)
  /\ (forall pre post, names = pre ++ quote p ++ post -> ~ Spec.delimited p post)
  /\ (forall q,
        loadQuery names format strict = Some q ->
        (exists pre post, q = pre ++ quote p ++ post)
        /\ (forall pre post,
              q = pre ++ quote p ++ post -> ~ Spec.delimited p post)).
Proof.
  intros Hres Hin Hq names.
  split; [reflexivity|]. split.
  { rewrite processInputFiles_eq, Hres. reflexivity. }
  destruct (join_fragment files p Hin) as (pre & post & E). fold names in E.
  split; [now exists pre, post|]. split.
  { intros ? ? _. now apply quoted_not_delimited. }
  intros q Hload. split.
  - destruct (loadQuery_around _ _ _ _ Hload) as (before & after & ->).
    exists (before ++ pre), (post ++ after).
    rewrite E. now rewrite !append_assoc.
  - intros ? ? _. now apply quoted_not_delimited.
Qed.

Lemma quoting_is_verbatim_witness :
  returned (processInputFiles envQuiet "it's.csv" CSV initWorld)
  = Some ("'it's.csv'", None)
  /\ ~ Spec.delimited "it's.csv" EmptyString
  /\ Spec.sqlLiteral "'it's.csv'" = Some ("it", "s.csv'").
Proof.
  pose proof (quoting_is_verbatim envQuiet "it's.csv" CSV false ["it's.csv"]
                "it's.csv" initWorld eq_refl (or_introl eq_refl) eq_refl) as H.
  cbv zeta in H. destruct H as (_ & Hret & _ & Hnot & _).
  split; [exact Hret|]. split; [|reflexivity].
  apply (Hnot EmptyString EmptyString). reflexivity.
Defined.

(** ** The signal listener *)

Lemma script_background (env : Env) (bg : nat -> list Bg) (path : string)
    (strict : bool) :
  Spec.script (withBackground env bg) path strict = Spec.script env path strict.
Proof. reflexivity. Qed.

Lemma script_prefix (env : Env) (path : string) (strict : bool) :
  exists rest,
    mainOps (trace (outcomeWorld (runCommand env path strict initWorld)))
    = (fst (Spec.script env path strict) ++ rest)%list.
Proof.
  pose proof (runCommand_script env path strict) as S. cbv zeta in S.
  destruct (snd (Spec.script env path strict));
    try (exists []; rewrite app_nil_r; tauto).
  eexists. apply S.
Qed.

(** C8.  The flag starts unset.  Every step of the system keeps a set
    flag set, and the main goroutine never stores it.  In every run the
    flag is stored at most once, by the listener, and it is set at the
    end exactly when it was stored; the signal the listener took is the
    first that arrived.  The listener does what the signals and its
    scheduling make it do: nothing while no signal arrived; once the
    first signal arrived and the listener was scheduled, the flag is
    stored; once it was scheduled again, the notice for that signal is
    printed; and nothing more however often it is scheduled and whatever
    arrives.  The main goroutine performs the operations of its script
    whatever the signals were. *)
Theorem listener_records_first_signal_once (env : Env) (path : string)
    (strict : bool) :
  let w := outcomeWorld (runCommand env path strict initWorld) in
  signalReceived initWorld = false
  /\ (forall v, signalReceived v = true ->
        (forall b, signalReceived (bgStep v b) = true)
        /\ (forall o, signalReceived (outcomeWorld (op env o v)) = true))
  /\ ~ In StoreFlag (mainOps (trace w))
  /\ storeCount (trace w) = (if signalReceived w then 1 else 0)
  /\ match listener w with
     | LAbsent => False
     | LWaiting =>
         signalReceived w = false /\ listenerOps (trace w) = []
         /\ sigChan w = firstArrival (trace w)
     | LStored sig =>
         signalReceived w = true /\ listenerOps (trace w) = [StoreFlag]
         /\ firstArrival (trace w) = Some sig
     | LDone =>
         signalReceived w = true
         /\ exists sig,
              listenerOps (trace w) = [StoreFlag; Stderr (noticeText sig)]
              /\ firstArrival (trace w) = Some sig
     end
  /\ listenerShape (processed env (clock w)) w
  /\ (forall bg,
        fst (Spec.script (withBackground env bg) path strict)
        = fst (Spec.script env path strict))
  /\ exists rest,
       mainOps (trace w) = (fst (Spec.script env path strict) ++ rest)%list.
Proof.
  intros w. pose proof (flagInv_run env path strict) as [Hl Hm]. fold w in Hl, Hm.
  split; [reflexivity|]. split.
  { intros v Hv. split.
    - intros b. now apply flag_bgStep.
    - intros o. cbn. rewrite flag_emit. now apply flag_tick. }
  split; [exact Hm|]. split.
  { apply storeCount_flag. now split. }
  split; [exact Hl|]. split; [apply onSchedule_run|]. split.
  { intros bg. now rewrite script_background. }
  apply script_prefix.
Qed.

Example listener_reports_sigterm :
  let w := outcomeWorld (runCommand envTerm "data.parquet" false initWorld) in
  firstSignal (processed envTerm (clock w)) = Some (SIGTERM, 2)
  /\ signalReceived w = true
  /\ listenerOps (trace w) = [StoreFlag; Stderr (noticeText SIGTERM)].
Proof. vm_compute. repeat split. Qed.

(** ** The staging directory and the exit status *)

(** C1.  The removal of the staging directory does not run when the run
    ends at a fatal error: for a CSV path that does not exist the
    directory is created, resolution fails, the process exits with
    status 1, and no removal was performed, so the directory is left on
    disk.  The same happens when SIGTERM ends the interactive child and
    its failure is reported: the signal is recorded, the status is 1 and
    the directory is left. *)
Theorem staging_dir_left_after_fatal_error :
  let r := runCommand envQuiet "missing.csv" false initWorld in
  let k := runCommand envKilled "data.parquet" false initWorld in
  (exitStatus r = 1%Z
   /\ mainOps (trace (outcomeWorld r))
      = [Spec.setupLine; Spec.detectedLine CSV; CallMkdirTemp EmptyString "dpi";
         Spec.usingLine "/tmp/dpi2063142327"; CallStat "missing.csv";
         Spec.errLine "file does not exist: missing.csv"]
   /\ tempDirs (outcomeWorld r) = ["/tmp/dpi2063142327"])
  /\ (exitStatus k = 1%Z
      /\ signalReceived (outcomeWorld k) = true
      /\ runCalls (mainOps (trace (outcomeWorld k)))
         = [Spec.loadArgs "/tmp/dpi2063142327"
              "CREATE TABLE p AS SELECT * FROM read_parquet(['data.parquet']);";
            Spec.shellArgs "/tmp/dpi2063142327"]
      /\ tempDirs (outcomeWorld k) = ["/tmp/dpi2063142327"]).
Proof. vm_compute. repeat split. Qed.

(** The staging directory is removed by the runs that complete and by no
    other. *)
Lemma staging_dir_removed_iff_completed (env : Env) (path : string)
    (strict : bool) (ws : string) :
  fsMkdirTemp env EmptyString "dpi" = inl ws ->
  determineFileFormat path <> Unsupported ->
  let w := outcomeWorld (runCommand env path strict initWorld) in
  (tempDirs w = [] <-> snd (Spec.script env path strict) = Spec.Completed)
  /\ (tempDirs w = [ws] <-> snd (Spec.script env path strict) <> Spec.Completed).
Proof.
  intros Hmk Hfmt w.
  pose proof (runCommand_script env path strict) as S. cbv zeta in S.
  fold w in S. unfold stagedAfter in S. rewrite Hmk in S.
  assert (Hs : snd (Spec.script env path strict) <> Spec.UnsupportedFormat
               /\ snd (Spec.script env path strict) <> Spec.StagingFailed).
  { unfold Spec.script. cbn zeta. apply String.eqb_neq in Hfmt.
    rewrite Hfmt, Hmk.
    destruct (Spec.resolve env path (determineFileFormat path));
      [|split; discriminate].
    destruct (loadQuery _ _ strict); [|split; discriminate].
    destruct (procRun env _); [split; discriminate|].
    destruct (procRun env _); split; discriminate. }
  destruct Hs as [Hs1 Hs2].
  destruct (snd (Spec.script env path strict)); try congruence;
    destruct S as (_ & _ & ->); split; split; intros; congruence.
Qed.

(** C2, as the code has it.  For a CSV path whose status is "does not
    exist" the process exits with status 1 and an error line.  The
    staging directory is requested before resolution: when it is created
    resolution fails with the not-found error, which is the error line;
    when it cannot be created the error line says so and resolution is
    not attempted. *)
Theorem missing_csv_fails_after_staging (env : Env) (path : string)
    (strict : bool) :
  determineFileFormat path = CSV ->
  fsStat env path = Some ENOENT ->
  let r := runCommand env path strict initWorld in
  let ops := mainOps (trace (outcomeWorld r)) in
  exitStatus r = 1%Z
  /\ (forall w,
        returned (processInputFiles env path CSV w)
        = Some (EmptyString, Some ("file does not exist: " ++ path)))
  /\ match fsMkdirTemp env EmptyString "dpi" with
     | inl ws =>
         ops = [Spec.setupLine; Spec.detectedLine CSV;
                CallMkdirTemp EmptyString "dpi"; Spec.usingLine ws;
                CallStat path;
                Spec.errLine ("file does not exist: " ++ path)]
     | inr e =>
         ops = [Spec.setupLine; Spec.detectedLine CSV;
                CallMkdirTemp EmptyString "dpi";
                Spec.errLine ("Failed to create temporary directory: " ++ e)]
     end.
Proof.
  intros Hfmt Hstat r ops.
  pose proof (runCommand_script env path strict) as S. cbv zeta in S.
  fold r in S. fold ops in S.
  unfold Spec.script, Spec.resolve, Spec.resolveCall in S. cbn zeta in S.
  rewrite Hfmt, Hstat in S.
  change (String.eqb CSV Unsupported) with false in S.
  change (String.eqb CSV Parquet) with false in S. cbn iota in S.
  split; [|split].
  - destruct (fsMkdirTemp env EmptyString "dpi"); cbn in S; tauto.
  - intros w. rewrite processInputFiles_eq. unfold Spec.resolve.
    change (String.eqb CSV Parquet) with false. cbn iota.
    now rewrite Hstat.
  - destruct (fsMkdirTemp env EmptyString "dpi"); cbn in S; tauto.
Qed.

Lemma missing_csv_fails_after_staging_witness :
  exitStatus (runCommand envQuiet "missing.csv" false initWorld) = 1%Z
  /\ mainOps (trace (outcomeWorld
                (runCommand envQuiet "missing.csv" false initWorld)))
     = [Spec.setupLine; Spec.detectedLine CSV; CallMkdirTemp EmptyString "dpi";
        Spec.usingLine "/tmp/dpi2063142327"; CallStat "missing.csv";
        Spec.errLine "file does not exist: missing.csv"].
Proof.
  pose proof (missing_csv_fails_after_staging envQuiet "missing.csv" false
                eq_refl eq_refl) as H.
  cbv zeta in H. destruct H as (Hst & _ & Hops).
  split; [exact Hst | exact Hops].
Defined.

(** C2, as claimed, fails: in the run on a CSV path that does not exist
    the staging directory was requested, and created. *)
Lemma missing_csv_stages_a_directory :
  determineFileFormat "missing.csv" = CSV
  /\ fsStat envQuiet "missing.csv" = Some ENOENT
  /\ ~ neverStaged (outcomeWorld
                      (runCommand envQuiet "missing.csv" false initWorld))
  /\ tempDirs (outcomeWorld (runCommand envQuiet "missing.csv" false initWorld))
     <> [].
Proof.
  split; [reflexivity|]. split; [reflexivity|]. split.
  - intros H. apply (H EmptyString "dpi"). vm_compute. tauto.
  - vm_compute. discriminate.
Qed.

(** C3, as the code has it.  A run that completes exits with 0 when
    the flag is unset at the final check and with 130 when it is set,
    whichever signal set it; the flag is set only when a registered
    signal arrived.  In a run that completes the removal of the staging
    directory is performed before the final check, so before the status
    130 is given.  A run that ends at a fatal error and during which no
    signal arrived exits with status 1. *)
Theorem exit_status_of_run (env : Env) (path : string) (strict : bool) :
  let r := runCommand env path strict initWorld in
  let w := outcomeWorld r in
  (signalReceived w = true -> exists sig, firstArrival (trace w) = Some sig)
  /\ match snd (Spec.script env path strict) with
     | Spec.Completed =>
         exitStatus r = (if signalReceived w then 130 else 0)%Z
         /\ tempDirs w = []
         /\ exists ws before,
              fsMkdirTemp env EmptyString "dpi" = inl ws
              /\ mainOps (trace w)
                 = (before ++ CallRemoveAll ws :: LoadFlag
                      :: (if signalReceived w then [Spec.cleanupLine] else []))%list
     | _ => arrivals (trace w) = [] -> exitStatus r = 1%Z
     end.
Proof.
  intros r w. split.
  { intros Hflag. pose proof (flagInv_run env path strict) as [Hl _].
    fold r in Hl. fold w in Hl. unfold listenerInv in Hl.
    destruct (listener w).
    - destruct Hl.
    - destruct Hl as (Hf & _). congruence.
    - destruct Hl as (_ & _ & Hf). eauto.
    - destruct Hl as (_ & sig & _ & Hf). eauto. }
  pose proof (runCommand_script env path strict) as S. cbv zeta in S.
  fold r in S. fold w in S.
  destruct (snd (Spec.script env path strict)) eqn:Hst; try tauto.
  destruct S as (Hops & Hstatus & Hdirs).
  split; [exact Hstatus|]. split; [exact Hdirs|].
  revert Hst Hops. unfold Spec.script. cbn zeta.
  destruct (String.eqb (determineFileFormat path) Unsupported); [discriminate|].
  destruct (fsMkdirTemp env EmptyString "dpi") as [ws|]; [|discriminate].
  destruct (Spec.resolve env path (determineFileFormat path)); [|discriminate].
  destruct (loadQuery _ _ strict); [|discriminate].
  destruct (procRun env _); [discriminate|].
  destruct (procRun env _); [discriminate|].
  cbn [fst snd]. intros _ Hops. exists ws. eexists. split; [reflexivity|].
  rewrite Hops. rewrite <- app_assoc. reflexivity.
Qed.

(** C3, as claimed, fails: SIGTERM is the only signal of this run, it is
    recorded, the run completes, and the status is 130, not 143. *)
Lemma sigterm_run_exits_130 :
  let r := runCommand envTerm "data.parquet" false initWorld in
  arrivals (trace (outcomeWorld r)) = [SIGTERM]
  /\ signalReceived (outcomeWorld r) = true
  /\ exitStatus r = 130%Z
  /\ exitStatus r <> (128 + signum SIGTERM)%Z.
Proof. vm_compute. repeat split; discriminate. Qed.

(* ===================================================================== *)
(** * Further properties of the code                                      *)
(* ===================================================================== *)

(** ** The entry point *)

(** X1.  When the engine is not on the search path, [Execute] ends the
    process with status 1 after the one line that says so; the command
    line is not looked at, the signal listener is never started and
    nothing is staged. *)
Theorem missing_engine_is_fatal_first (host : Host) (e : string) :
  hostLookPath host "duckdb" = inr e ->
  exists w,
    Execute host initWorld = Exited 1 w
    /\ mainOps (trace w)
       = [Spec.errLine ("DuckDB binary not found in system PATH. "
                          ++ "Please install DuckDB: "
                          ++ "https://duckdb.org/docs/installation/")]
    /\ listener w = LAbsent
    /\ tempDirs w = [].
Proof.
  intros H. unfold Execute, ensureDuckDBBinary. rewrite H.
  eexists. split; [reflexivity|]. autorewrite with world.
  repeat split. unfold tick, bgRun.
  cbn [advance listener].
  generalize (background (hostEnv host) (clock initWorld)).
  intros bs. assert (K : forall v, listener v = LAbsent ->
                         listener (fold_left bgStep bs v) = LAbsent).
  { induction bs as [|b bs IH]; intros v Hv; cbn; trivial.
    apply IH. destruct b; cbn; now rewrite Hv. }
  now apply K.
Qed.

Lemma missing_engine_is_fatal_first_witness :
  exists w,
    Execute hostBare initWorld = Exited 1 w
    /\ stderrOf (mainOps (trace w))
       = ["Error: DuckDB binary not found in system PATH. Please install DuckDB: https://duckdb.org/docs/installation/"
            ++ nl].
Proof.
  destruct (missing_engine_is_fatal_first hostBare
              "executable file not found in $PATH" eq_refl)
    as (w & E & Hops & _).
  exists w. split; [exact E|]. rewrite Hops. reflexivity.
Defined.

Lemma printAll_performs (host : Host) (texts : list Printed) :
  forall w, exists w',
    printAll host texts w = Returned tt w'
    /\ mainOps (trace w') = (mainOps (trace w) ++ map printedOp texts)%list
    /\ tempDirs w' = tempDirs w.
Proof.
  induction texts as [|p rest IH]; intros w.
  - exists w. cbn. rewrite app_nil_r. auto.
  - cbn [printAll]. unfold bind, op.
    destruct (IH (emit MainG (printedOp p) (tick (hostEnv host) w)))
      as (w' & E & Hops & Hd).
    exists w'. rewrite E. split; [reflexivity|].
    autorewrite with world in Hops, Hd.
    rewrite Hops, Hd, <- app_assoc. split; reflexivity.
Qed.

(** X2.  With the engine on the search path, [Execute] ends as the
    command framework decides.  After an error of the framework the
    process has written the framework's own texts and then, as its last
    operation, the line [Error: Command execution failed: ...], and
    exits with status 1 with nothing staged.  After a line the framework
    handles itself the process has written the framework's texts and
    nothing else, and returns.  A dispatched command ends exactly as
    [runCommand] ends, with the same world and the same status. *)
Theorem execute_follows_dispatch (host : Host) (found : string) :
  hostLookPath host "duckdb" = inl found ->
  match hostDispatch host with
  | UsageError printed msg =>
      exists w,
        Execute host initWorld = Exited 1 w
        /\ mainOps (trace w)
           = (map printedOp printed
                ++ [Spec.errLine ("Command execution failed: " ++ msg)])%list
        /\ tempDirs w = []
  | Handled printed =>
      exists w,
        Execute host initWorld = Returned tt w
        /\ mainOps (trace w) = map printedOp printed
        /\ tempDirs w = []
  | RunWith filePath strict =>
      outcomeWorld (Execute host initWorld)
      = outcomeWorld (runCommand (hostEnv host) filePath strict initWorld)
      /\ exitStatus (Execute host initWorld)
         = exitStatus (runCommand (hostEnv host) filePath strict initWorld)
  end.
Proof.
  intros H. unfold Execute, ensureDuckDBBinary, rootCmdExecute. rewrite H.
  destruct (hostDispatch host) as [printed msg|printed|filePath strict].
  - destruct (printAll_performs host printed initWorld) as (w & E & Hops & Hd).
    cbv beta iota delta [bind when ret isErr errText exitWithError op osExit].
    rewrite E. eexists. split; [reflexivity|].
    autorewrite with world. rewrite Hops, Hd. auto.
  - destruct (printAll_performs host printed initWorld) as (w & E & Hops & Hd).
    cbv beta iota delta [bind when ret isErr].
    rewrite E. exists w. rewrite Hops, Hd. auto.
  - cbv beta iota delta [bind when ret isErr].
    destruct (runCommand (hostEnv host) filePath strict initWorld);
      split; reflexivity.
Qed.

Lemma execute_follows_dispatch_witness :
  (exists w,
     Execute hostTwoArgs initWorld = Exited 1 w
     /\ mainOps (trace w)
        = [Stderr ("Error: accepts 1 arg(s), received 2" ++ nl);
           Stderr usageText;
           Spec.errLine
             "Command execution failed: accepts 1 arg(s), received 2"])
  /\ exitStatus (Execute hostMissingFile initWorld) = 1%Z.
Proof.
  pose proof (execute_follows_dispatch hostTwoArgs "/usr/bin/duckdb" eq_refl)
    as H.
  pose proof (execute_follows_dispatch hostMissingFile "/usr/bin/duckdb"
                eq_refl) as K.
  cbn [hostDispatch hostTwoArgs] in H. cbn [hostDispatch hostMissingFile] in K.
  split.
  - destruct H as (w & E & Hops & _). exists w. split; [exact E | exact Hops].
  - destruct K as [_ K]. rewrite K. vm_compute. reflexivity.
Defined.

(** ** Resolution and materialization on their own *)

(** X3.  Resolution tells the Parquet format from everything else: any
    other format, the unsupported value included, is resolved as the CSV
    format is, by one status call on the path as given. *)
Theorem other_formats_resolve_like_csv (env : Env) (path : string)
    (format : FileFormat) (w : World) :
  format <> Parquet ->
  processInputFiles env path format w = processInputFiles env path CSV w
  /\ mainOps (trace (outcomeWorld (processInputFiles env path format w)))
     = (mainOps (trace w) ++ [CallStat path])%list.
Proof.
  intros H. apply String.eqb_neq in H.
  rewrite !processInputFiles_eq. unfold Spec.resolve, Spec.resolveCall.
  rewrite H. change (String.eqb CSV Parquet) with false.
  split; [reflexivity|]. cbn. now autorewrite with world.
Qed.

Lemma other_formats_resolve_like_csv_witness :
  returned (processInputFiles envQuiet "data.csv" Unsupported initWorld)
  = Some ("'data.csv'", None).
Proof.
  destruct (other_formats_resolve_like_csv envQuiet "data.csv" Unsupported
              initWorld ltac:(discriminate)) as [E _].
  rewrite E. reflexivity.
Defined.

Lemma quote_not_empty (f : string) : quote f <> EmptyString.
Proof. rewrite quote_cons. discriminate. Qed.

Lemma joined_names_not_empty (f : string) (fs : list string) :
  strings_Join (map quote (f :: fs)) "," <> EmptyString.
Proof.
  destruct fs as [|g fs].
  - apply quote_not_empty.
  - change (map quote (f :: g :: fs)) with (quote f :: quote g :: map quote fs).
    rewrite strings_Join_cons2, quote_cons. discriminate.
Qed.

(** X4.  Resolution always returns to its caller, after exactly one
    call to the file system (an expansion for the Parquet format, a
    status call otherwise) and without touching the staging
    directories; the names it returns are empty exactly when it returns
    an error. *)
Theorem resolution_returns_names_or_error (env : Env) (path : string)
    (format : FileFormat) (w : World) :
  exists names err w',
    processInputFiles env path format w = Returned (names, err) w'
    /\ (err = None <-> names <> EmptyString)
    /\ mainOps (trace w')
       = (mainOps (trace w)
            ++ [if String.eqb format Parquet then CallGlob path
                else CallStat path])%list
    /\ tempDirs w' = tempDirs w.
Proof.
  rewrite processInputFiles_eq.
  assert (Hshape :
            match Spec.resolve env path format with
            | inl files => files <> []
            | inr _ => True
            end).
  { unfold Spec.resolve. destruct (String.eqb format Parquet).
    - destruct (fsGlob env path) as [[|f fs]|]; trivial; discriminate.
    - destruct (fsStat env path) as [[]|]; trivial; discriminate. }
  destruct (Spec.resolve env path format) as [[|f fs]|e];
    [congruence| |]; eexists _, _, _; (split; [reflexivity|]);
    (split; [|autorewrite with world; auto]).
  - split; [intros _; apply joined_names_not_empty | reflexivity].
  - split; [discriminate | congruence].
Qed.

(** X5.  Materialization runs a subprocess exactly for the two formats
    it knows.  For the Parquet and the CSV format it runs one, on the
    database file of the staging directory, and returns nil exactly when
    the subprocess succeeded; for any other format it returns the
    unsupported-format error and leaves the world as it was. *)
Theorem materialization_by_format (env : Env) (names ws : string)
    (format : FileFormat) (strict : bool) (w : World) :
  exists err w',
    createTemporaryTable env names ws format strict w = Returned err w'
    /\ (format = Parquet \/ format = CSV ->
        exists query,
          loadQuery names format strict = Some query
          /\ runCalls (mainOps (trace w'))
             = (runCalls (mainOps (trace w))
                  ++ [["duckdb"; filepath_Join [ws; "tmp.duckdb"]; "-c"; query]])%list
          /\ (err = None
              <-> procRun env ["duckdb"; filepath_Join [ws; "tmp.duckdb"];
                               "-c"; query] = None))
    /\ (format <> Parquet -> format <> CSV ->
        w' = w /\ err = Some ("unsupported file format: " ++ format))
    /\ (err = None -> format = Parquet \/ format = CSV).
Proof.
  rewrite createTemporaryTable_eq. unfold loadQuery.
  destruct (String.eqb_spec format Parquet) as [->|Hp].
  - eexists _, _. split; [reflexivity|]. split; [|split; [congruence|auto]].
    intros _. eexists. split; [reflexivity|].
    autorewrite with world. rewrite runCalls_app. split; [reflexivity|].
    unfold Spec.loadArgs, Spec.dbPath.
    destruct (procRun env _); cbn; split; congruence.
  - destruct (String.eqb_spec format CSV) as [->|Hc].
    + eexists _, _. split; [reflexivity|]. split; [|split; [congruence|auto]].
      intros _. eexists. split; [reflexivity|].
      autorewrite with world. rewrite runCalls_app. split; [reflexivity|].
      unfold Spec.loadArgs, Spec.dbPath.
      destruct (procRun env _); cbn; split; congruence.
    + eexists _, _. split; [reflexivity|].
      split; [intros [?|?]; congruence|]. split; [auto | discriminate].
Qed.

(** ** Whole runs *)

Lemma stderrOf_app (a b : list Op) :
  stderrOf (a ++ b)%list = (stderrOf a ++ stderrOf b)%list.
Proof. apply flat_map_app. Qed.

(** The script of a run, case by case. *)
Lemma script_cases (env : Env) (path : string) (strict : bool) :
  let format := determineFileFormat path in
  let s := Spec.script env path strict in
  (exists msg, s = ([Spec.setupLine; Spec.errLine msg], Spec.UnsupportedFormat))
  \/ (exists msg,
        s = ([Spec.setupLine; Spec.detectedLine format;
              CallMkdirTemp EmptyString "dpi"; Spec.errLine msg],
             Spec.StagingFailed))
  \/ (exists ws,
        fsMkdirTemp env EmptyString "dpi" = inl ws
        /\ ((exists msg st,
               s = ([Spec.setupLine; Spec.detectedLine format;
                     CallMkdirTemp EmptyString "dpi"; Spec.usingLine ws;
                     Spec.resolveCall path format; Spec.errLine msg], st)
               /\ st <> Spec.Completed)
            \/ (exists query e,
                  procRun env (Spec.loadArgs ws query) = Some e
                  /\ exists msg,
                       s = ([Spec.setupLine; Spec.detectedLine format;
                             CallMkdirTemp EmptyString "dpi"; Spec.usingLine ws;
                             Spec.resolveCall path format;
                             CallRun (Spec.loadArgs ws query);
                             Spec.errLine msg], Spec.LoadFailed))
            \/ (exists query,
                  procRun env (Spec.loadArgs ws query) = None
                  /\ ((exists msg,
                         s = ([Spec.setupLine; Spec.detectedLine format;
                               CallMkdirTemp EmptyString "dpi";
                               Spec.usingLine ws;
                               Spec.resolveCall path format;
                               CallRun (Spec.loadArgs ws query);
                               Spec.createdLine; Spec.startingLine;
                               CallRun (Spec.shellArgs ws);
                               Spec.errLine msg], Spec.LaunchFailed))
                      \/ s = ([Spec.setupLine; Spec.detectedLine format;
                               CallMkdirTemp EmptyString "dpi";
                               Spec.usingLine ws;
                               Spec.resolveCall path format;
                               CallRun (Spec.loadArgs ws query);
                               Spec.createdLine; Spec.startingLine;
                               CallRun (Spec.shellArgs ws);
                               CallRemoveAll ws], Spec.Completed))))).
Proof.
  intros format s. subst s. unfold Spec.script. fold format. cbn zeta.
  destruct (String.eqb format Unsupported);
    [left; eexists; reflexivity|].
  destruct (fsMkdirTemp env EmptyString "dpi") as [ws|e];
    [|right; left; eexists; reflexivity].
  right; right. exists ws. split; [reflexivity|].
  destruct (Spec.resolve env path format) as [files|e].
  2:{ left. eexists _, _. split; [reflexivity | discriminate]. }
  destruct (loadQuery _ format strict) as [query|].
  2:{ left. eexists _, _. split; [reflexivity | discriminate]. }
  destruct (procRun env (Spec.loadArgs ws query)) as [e|] eqn:Hload.
  { right; left. exists query, e. split; [exact Hload|].
    eexists; reflexivity. }
  right; right. exists query. split; [exact Hload|].
  destruct (procRun env (Spec.shellArgs ws));
    [left; eexists; reflexivity | right; reflexivity].
Qed.

(** X6.  A run spawns nothing but the engine, at most twice, on the
    database file of its staging directory: no subprocess when the run
    fails before materialization, the load alone when the load fails,
    and the load followed by the interactive session exactly when the
    load succeeded. *)
Theorem run_spawns_only_the_engine (env : Env) (path : string) (strict : bool) :
  let r := runCommand env path strict initWorld in
  let calls := runCalls (mainOps (trace (outcomeWorld r))) in
  (calls = [] /\ exitStatus r = 1%Z)
  \/ exists ws query,
       fsMkdirTemp env EmptyString "dpi" = inl ws
       /\ let database := filepath_Join [ws; "tmp.duckdb"] in
          let load := ["duckdb"; database; "-c"; query] in
          (calls = [load] /\ procRun env load <> None /\ exitStatus r = 1%Z)
          \/ (calls = [load; ["duckdb"; database]] /\ procRun env load = None).
Proof.
  intros r calls.
  pose proof (runCommand_script env path strict) as S. cbv zeta in S.
  fold r in S.
  destruct (script_cases env path strict)
    as [(msg & E)|[(msg & E)|(ws & Hmk & [(msg & st & E & Hst)|
         [(query & e & Hload & msg & E)|(query & Hload & [(msg & E)|E])]])]];
    rewrite E in S; cbn [fst snd] in S.
  - left. destruct S as (Hops & Hs & _). subst calls. rewrite Hops. auto.
  - left. destruct S as (Hops & Hs & _). subst calls. rewrite Hops. auto.
  - left. assert (Hops : mainOps (trace (outcomeWorld r))
                         = [Spec.setupLine;
                            Spec.detectedLine (determineFileFormat path);
                            CallMkdirTemp EmptyString "dpi"; Spec.usingLine ws;
                            Spec.resolveCall path (determineFileFormat path);
                            Spec.errLine msg] /\ exitStatus r = 1%Z)
      by (destruct st; try tauto; congruence).
    destruct Hops as [Hops Hs]. subst calls. rewrite Hops. split; [|exact Hs].
    unfold Spec.resolveCall.
    destruct (String.eqb (determineFileFormat path) Parquet); reflexivity.
  - right. exists ws, query. split; [exact Hmk|]. cbv zeta. left.
    destruct S as (Hops & Hs & _). subst calls. rewrite Hops.
    split; [|split; [unfold Spec.loadArgs, Spec.dbPath in Hload; congruence
                    | exact Hs]].
    unfold Spec.resolveCall.
    destruct (String.eqb (determineFileFormat path) Parquet); reflexivity.
  - right. exists ws, query. split; [exact Hmk|]. cbv zeta. right.
    destruct S as (Hops & Hs & _). subst calls. rewrite Hops.
    split; [|exact Hload].
    unfold Spec.resolveCall.
    destruct (String.eqb (determineFileFormat path) Parquet); reflexivity.
  - right. exists ws, query. split; [exact Hmk|]. cbv zeta. right.
    destruct S as (Hops & Hs & _). subst calls. rewrite Hops, runCalls_app.
    split; [|exact Hload].
    replace (runCalls (LoadFlag :: (if signalReceived (outcomeWorld r)
                                    then [Spec.cleanupLine] else [])))
      with (@nil (list string))
      by (now destruct (signalReceived (outcomeWorld r))).
    rewrite app_nil_r.
    unfold Spec.resolveCall.
    destruct (String.eqb (determineFileFormat path) Parquet); reflexivity.
Qed.

(** X7.  Every run starts with the set-up line on standard output, and
    what the main goroutine writes to the error stream is decided by how
    the run ends: nothing when the status is 0, the single line
    [Error: ...] as the last operation when it is 1, and the single
    clean-up line when it is 130. *)
Theorem one_error_line_per_failure (env : Env) (path : string) (strict : bool) :
  let r := runCommand env path strict initWorld in
  let ops := mainOps (trace (outcomeWorld r)) in
  hd_error ops = Some Spec.setupLine
  /\ ((exitStatus r = 0%Z /\ stderrOf ops = [])
      \/ (exitStatus r = 1%Z
          /\ exists msg,
               stderrOf ops = ["Error: " ++ msg ++ nl]
               /\ last ops Spec.setupLine = Stderr ("Error: " ++ msg ++ nl))
      \/ (exitStatus r = 130%Z
          /\ stderrOf ops = ["Cleanup completed, exiting" ++ nl])).
Proof.
  intros r ops.
  pose proof (runCommand_script env path strict) as S. cbv zeta in S.
  fold r in S. fold ops in S.
  destruct (script_cases env path strict)
    as [(msg & E)|[(msg & E)|(ws & Hmk & [(msg & st & E & Hst)|
         [(query & e & Hload & msg & E)|(query & Hload & [(msg & E)|E])]])]];
    rewrite E in S; cbn [fst snd] in S.
  1-2,4-5:
    destruct S as (Hops & Hs & _); rewrite Hops; split; [reflexivity|];
    right; left; split; [exact Hs|]; exists msg; unfold Spec.resolveCall;
    destruct (String.eqb (determineFileFormat path) Parquet);
    split; reflexivity.
  - assert (Hops : ops = [Spec.setupLine;
                          Spec.detectedLine (determineFileFormat path);
                          CallMkdirTemp EmptyString "dpi"; Spec.usingLine ws;
                          Spec.resolveCall path (determineFileFormat path);
                          Spec.errLine msg] /\ exitStatus r = 1%Z)
      by (destruct st; try tauto; congruence).
    destruct Hops as [Hops Hs]. rewrite Hops. split; [reflexivity|].
    right; left. split; [exact Hs|]. exists msg. unfold Spec.resolveCall.
    destruct (String.eqb (determineFileFormat path) Parquet);
      split; reflexivity.
  - destruct S as (Hops & Hs & _). rewrite Hops, Hs. split; [reflexivity|].
    rewrite stderrOf_app. unfold Spec.resolveCall.
    destruct (signalReceived (outcomeWorld r));
      destruct (String.eqb (determineFileFormat path) Parquet);
      [right; right | right; right | left | left]; split; reflexivity.
Qed.

(** X8.  The strict flag matters for the CSV format only: for a path of
    any other format a run with the flag set ends in the same world with
    the same status as a run without it. *)
Theorem strict_matters_for_csv_only (env : Env) (path : string) (w : World) :
  determineFileFormat path <> CSV ->
  runCommand env path true w = runCommand env path false w.
Proof.
  intros Hfmt.
  assert (Hq : forall names,
             loadQuery names (determineFileFormat path) true
             = loadQuery names (determineFileFormat path) false).
  { intros names. unfold loadQuery.
    destruct (String.eqb (determineFileFormat path) Parquet); trivial.
    apply String.eqb_neq in Hfmt. now rewrite Hfmt. }
  unfold runCommand. step.
  destruct (String.eqb (determineFileFormat path) EmptyString);
    [reflexivity|].
  step. destruct (fsMkdirTemp env EmptyString "dpi"); step; [|reflexivity].
  rewrite !processInputFiles_eq.
  destruct (Spec.resolve env path (determineFileFormat path));
    step; [|reflexivity].
  now rewrite !createTemporaryTable_eq, Hq.
Qed.

Lemma strict_matters_for_csv_only_witness :
  runCommand envQuiet "data.parquet" true initWorld
  = runCommand envQuiet "data.parquet" false initWorld
  /\ runCalls (mainOps (trace (outcomeWorld
                 (runCommand envQuiet "data.csv" true initWorld))))
     <> runCalls (mainOps (trace (outcomeWorld
                    (runCommand envQuiet "data.csv" false initWorld)))).
Proof.
  split.
  - apply (strict_matters_for_csv_only envQuiet "data.parquet" initWorld).
    vm_compute. discriminate.
  - vm_compute. discriminate.
Defined.

(** A run on the same system under another schedule of signal arrivals
    and listener steps: all the results of the file system and of the
    subprocesses are held fixed. *)
Lemma run_under_other_schedule (env : Env) (bg : nat -> list Bg)
    (path : string) (strict : bool) :
  let r1 := runCommand env path strict initWorld in
  let r2 := runCommand (withBackground env bg) path strict initWorld in
  let ops1 := mainOps (trace (outcomeWorld r1)) in
  let ops2 := mainOps (trace (outcomeWorld r2)) in
  tempDirs (outcomeWorld r1) = tempDirs (outcomeWorld r2)
  /\ runCalls ops1 = runCalls ops2
  /\ (exitStatus r1 = 1%Z <-> exitStatus r2 = 1%Z)
  /\ (exitStatus r1 = 1%Z -> ops1 = ops2)
  /\ (exitStatus r1 <> 1%Z ->
      (exitStatus r1 = 0%Z \/ exitStatus r1 = 130%Z)
      /\ (exitStatus r2 = 0%Z \/ exitStatus r2 = 130%Z)).
Proof.
  intros r1 r2 ops1 ops2.
  pose proof (runCommand_script env path strict) as S1.
  pose proof (runCommand_script (withBackground env bg) path strict) as S2.
  cbv zeta in S1, S2. rewrite script_background in S2.
  change (stagedAfter (withBackground env bg)) with (stagedAfter env) in S2.
  fold r1 in S1. fold ops1 in S1. fold r2 in S2. fold ops2 in S2.
  destruct (snd (Spec.script env path strict)).
  1-5: destruct S1 as (O1 & E1 & D1); destruct S2 as (O2 & E2 & D2);
       rewrite O1, O2, E1, E2, D1, D2; repeat split; intros; congruence.
  destruct S1 as (O1 & E1 & D1); destruct S2 as (O2 & E2 & D2).
  rewrite O1, O2, E1, E2, D1, D2, !runCalls_app.
  destruct (signalReceived (outcomeWorld r1));
    destruct (signalReceived (outcomeWorld r2));
    repeat split; intros; try discriminate; auto.
Qed.

(** X9.  The process's own handling of signals does not steer a run:
    for two systems that give the same results to every call of the
    file system and to every [cmd.Run], whatever signals arrive and
    however the listener is scheduled, the runs leave the same staging
    directories, spawn the same subprocesses and fail in the same cases,
    then with the very same operations; only the status of a run that
    does not fail can differ, and only between 0 and 130.  (A signal
    that ends a child is seen through the result of that child's
    [cmd.Run], which is one of the results held fixed here.) *)
Theorem same_results_same_run (env1 env2 : Env) (path : string)
    (strict : bool) :
  fsGlob env1 = fsGlob env2 ->
  fsStat env1 = fsStat env2 ->
  fsMkdirTemp env1 = fsMkdirTemp env2 ->
  procRun env1 = procRun env2 ->
  let r1 := runCommand env1 path strict initWorld in
  let r2 := runCommand env2 path strict initWorld in
  let ops1 := mainOps (trace (outcomeWorld r1)) in
  let ops2 := mainOps (trace (outcomeWorld r2)) in
  tempDirs (outcomeWorld r1) = tempDirs (outcomeWorld r2)
  /\ runCalls ops1 = runCalls ops2
  /\ (exitStatus r1 = 1%Z <-> exitStatus r2 = 1%Z)
  /\ (exitStatus r1 = 1%Z -> ops1 = ops2)
  /\ (exitStatus r1 <> 1%Z ->
      (exitStatus r1 = 0%Z \/ exitStatus r1 = 130%Z)
      /\ (exitStatus r2 = 0%Z \/ exitStatus r2 = 130%Z)).
Proof.
  destruct env1 as [g1 s1 m1 p1 b1], env2 as [g2 s2 m2 p2 b2].
  cbn [fsGlob fsStat fsMkdirTemp procRun]. intros -> -> -> ->.
  exact (run_under_other_schedule (mkEnv g2 s2 m2 p2 b1) b2 path strict).
Qed.

Lemma same_results_same_run_witness :
  runCalls (mainOps (trace (outcomeWorld
              (runCommand envQuiet "data.parquet" false initWorld))))
  = runCalls (mainOps (trace (outcomeWorld
                (runCommand envTerm "data.parquet" false initWorld))))
  /\ exitStatus (runCommand envQuiet "data.parquet" false initWorld) = 0%Z
  /\ exitStatus (runCommand envTerm "data.parquet" false initWorld) = 130%Z.
Proof.
  pose proof (same_results_same_run envQuiet envTerm "data.parquet" false
                eq_refl eq_refl eq_refl eq_refl) as H.
  cbv zeta in H. destruct H as (_ & Hcalls & _).
  split; [exact Hcalls|]. split; vm_compute; reflexivity.
Defined.

(** X10.  Once the staging directory [ws] is created, it is removed by
    the runs that do not fail and by no other: a run that ends with
    status 1 performs no removal and leaves [ws] on disk, and a run that
    ends with another status has removed it and leaves nothing. *)
Theorem staging_dir_removed_unless_fatal (env : Env) (path : string)
    (strict : bool) (ws : string) :
  fsMkdirTemp env EmptyString "dpi" = inl ws ->
  determineFileFormat path <> Unsupported ->
  let r := runCommand env path strict initWorld in
  let ops := mainOps (trace (outcomeWorld r)) in
  (exitStatus r = 1%Z ->
   tempDirs (outcomeWorld r) = [ws] /\ ~ In (CallRemoveAll ws) ops)
  /\ (exitStatus r <> 1%Z ->
      tempDirs (outcomeWorld r) = [] /\ In (CallRemoveAll ws) ops).
Proof.
  intros Hmk Hfmt r ops.
  pose proof (runCommand_script env path strict) as S. cbv zeta in S.
  fold r in S. fold ops in S.
  unfold Spec.script, stagedAfter in S. cbn zeta in S.
  apply String.eqb_neq in Hfmt. rewrite Hfmt, Hmk in S.
  assert (Hnot : forall P : Prop, (1 <> 1)%Z -> P) by (intros P H; now destruct H).
  destruct (Spec.resolve env path (determineFileFormat path)) as [files|e].
  2:{ cbn [fst snd] in S. destruct S as (Hops & Hs & Hd).
      rewrite Hops, Hs, Hd. split; [intros _|apply Hnot].
      split; [reflexivity|]. unfold Spec.resolveCall.
      destruct (String.eqb (determineFileFormat path) Parquet);
        cbn; intuition discriminate. }
  destruct (loadQuery _ _ strict) as [query|].
  2:{ cbn [fst snd] in S. destruct S as (Hops & Hs & Hd).
      rewrite Hops, Hs, Hd. split; [intros _|apply Hnot].
      split; [reflexivity|]. unfold Spec.resolveCall.
      destruct (String.eqb (determineFileFormat path) Parquet);
        cbn; intuition discriminate. }
  destruct (procRun env (Spec.loadArgs ws query)).
  { cbn [fst snd] in S. destruct S as (Hops & Hs & Hd).
    rewrite Hops, Hs, Hd. split; [intros _|apply Hnot].
    split; [reflexivity|]. unfold Spec.resolveCall.
    destruct (String.eqb (determineFileFormat path) Parquet);
      cbn; intuition discriminate. }
  destruct (procRun env (Spec.shellArgs ws)).
  { cbn [fst snd] in S. destruct S as (Hops & Hs & Hd).
    rewrite Hops, Hs, Hd. split; [intros _|apply Hnot].
    split; [reflexivity|]. unfold Spec.resolveCall.
    destruct (String.eqb (determineFileFormat path) Parquet);
      cbn; intuition discriminate. }
  cbn [fst snd] in S. destruct S as (Hops & Hs & Hd).
  rewrite Hops, Hs, Hd. split.
  - destruct (signalReceived (outcomeWorld r)); discriminate.
  - intros _. split; [reflexivity|]. apply in_or_app. left.
    apply in_or_app. right. now left.
Qed.

Lemma staging_dir_removed_unless_fatal_witness :
  tempDirs (outcomeWorld (runCommand envBadLoad "data.parquet" false initWorld))
  = ["/tmp/dpi2063142327"]
  /\ tempDirs (outcomeWorld (runCommand envTerm "data.parquet" false initWorld))
     = [].
Proof.
  pose proof (staging_dir_removed_unless_fatal envBadLoad "data.parquet" false
                "/tmp/dpi2063142327" eq_refl ltac:(vm_compute; discriminate))
    as [H1 _].
  pose proof (staging_dir_removed_unless_fatal envTerm "data.parquet" false
                "/tmp/dpi2063142327" eq_refl ltac:(vm_compute; discriminate))
    as [_ H2].
  split.
  - assert (E : exitStatus (runCommand envBadLoad "data.parquet" false initWorld)
                = 1%Z) by (vm_compute; reflexivity).
    exact (proj1 (H1 E)).
  - assert (E : exitStatus (runCommand envTerm "data.parquet" false initWorld)
                <> 1%Z) by (vm_compute; discriminate).
    exact (proj1 (H2 E)).
Defined.

(** X12.  The process started by [Execute] ends with status 0, 1 or 130,
    and with 130 only when a registered signal arrived while a dispatched
    command was running. *)
Theorem execute_status (host : Host) :
  let r := Execute host initWorld in
  (exitStatus r = 0%Z \/ exitStatus r = 1%Z \/ exitStatus r = 130%Z)
  /\ (exitStatus r = 130%Z ->
      exists sig, firstArrival (trace (outcomeWorld r)) = Some sig).
Proof.
  intros r. subst r. unfold Execute, ensureDuckDBBinary, rootCmdExecute.
  destruct (hostLookPath host "duckdb") as [found|e].
  2:{ cbn. split; [auto | discriminate]. }
  destruct (hostDispatch host) as [printed msg|printed|filePath strict].
  1-2: destruct (printAll_performs host printed initWorld) as (v & E & _);
       cbv beta iota delta [bind when ret isErr errText exitWithError op
                              osExit];
       rewrite E; cbn; split; [auto | discriminate].
  cbv beta iota delta [bind when ret isErr].
  pose proof (runCommand_script (hostEnv host) filePath strict) as S.
  pose proof (flagInv_run (hostEnv host) filePath strict) as [Hl _].
  cbv zeta in S.
  destruct (runCommand (hostEnv host) filePath strict initWorld) as [[] w|c w];
    cbn [exitStatus outcomeWorld] in *.
  - split; [auto | discriminate].
  - destruct (snd (Spec.script (hostEnv host) filePath strict));
      try (destruct S as (_ & -> & _); split; [auto | discriminate]).
    destruct S as (_ & -> & _).
    destruct (signalReceived w) eqn:Hflag; [|split; [auto | discriminate]].
    split; [auto|]. intros _. unfold listenerInv in Hl. rewrite Hflag in Hl.
    destruct (listener w).
    + destruct Hl.
    + destruct Hl as (Hf & _). discriminate.
    + destruct Hl as (_ & _ & Hf). eauto.
    + destruct Hl as (_ & sig & _ & Hf). eauto.
Qed.

(** ** The format of a path, read off its last element *)

Lemma extLoop_step (path : string) (n : nat) (c : ascii) :
  String.get n path = Some c ->
  extLoop path (S n)
  = if IsPathSeparator c then EmptyString
    else if Ascii.eqb c "." then substring n (String.length path - n) path
    else extLoop path n.
Proof. intros H. cbn [extLoop]. now rewrite H. Qed.

(** The loop of the extension passes over a name without dot and
    separator. *)
Lemma extLoop_skip_plain (back : string) :
  forall front,
    plainName back = true ->
    extLoop (front ++ back) (String.length front + String.length back)
    = extLoop (front ++ back) (String.length front).
Proof.
  induction back as [|c back IH]; intros front H.
  - cbn [String.length]. now rewrite Nat.add_0_r.
  - cbn in H. apply andb_true_iff in H as [H Hback].
    apply andb_true_iff in H as [Hsep Hdot].
    apply negb_true_iff in Hsep. apply negb_true_iff in Hdot.
    specialize (IH (front ++ String c EmptyString) Hback).
    rewrite append_assoc in IH.
    change (String c EmptyString ++ back) with (String c back) in IH.
    rewrite append_length in IH. cbn [String.length] in IH.
    cbn [String.length].
    replace (String.length front + S (String.length back))
      with (String.length front + 1 + String.length back) by lia.
    rewrite IH. replace (String.length front + 1) with (S (String.length front))
      by lia.
    rewrite (extLoop_step _ _ c) by apply get_middle.
    now rewrite Hsep, Hdot.
Qed.

Lemma Ext_after_dot (front e : string) :
  plainName e = true -> Ext (front ++ String "." e) = String "." e.
Proof.
  intros H. unfold Ext.
  replace (front ++ String "." e)
    with ((front ++ String "." EmptyString) ++ e)
    by (now rewrite append_assoc).
  rewrite (append_length _ e), extLoop_skip_plain by trivial.
  rewrite append_assoc.
  change (String "." EmptyString ++ e) with (String "." e).
  rewrite append_length. cbn [String.length].
  replace (String.length front + 1) with (S (String.length front)) by lia.
  rewrite (extLoop_step _ _ ".") by apply get_middle.
  cbn [IsPathSeparator Ascii.eqb Bool.eqb]. cbn iota.
  rewrite append_length.
  replace (String.length front + String.length (String "." e)
           - String.length front)
    with (String.length (String "." e)) by lia.
  apply substring_back.
Qed.

Lemma Ext_without_dot (front back : string) :
  plainName back = true ->
  front = EmptyString \/ (exists d, front = d ++ String "/" EmptyString) ->
  Ext (front ++ back) = EmptyString.
Proof.
  intros H Hfront. unfold Ext.
  rewrite append_length, extLoop_skip_plain by trivial.
  destruct Hfront as [->|(d & ->)]; [reflexivity|].
  rewrite append_assoc.
  change (String "/" EmptyString ++ back) with (String "/" back).
  rewrite append_length. cbn [String.length].
  replace (String.length d + 1) with (S (String.length d)) by lia.
  rewrite (extLoop_step _ _ "/") by apply get_middle.
  reflexivity.
Qed.

Lemma equalFold_length (s t : string) :
  equalFold s t = true -> String.length s = String.length t.
Proof.
  revert t. induction s as [|a s IH]; intros [|b t] H; cbn in *;
    try discriminate; trivial.
  apply andb_true_iff in H as [_ H]. f_equal. now apply IH.
Qed.

Lemma sameLetter_plain (a b : ascii) :
  sameLetter a b = true ->
  negb (IsPathSeparator b) && negb (Ascii.eqb b ".") = true ->
  negb (IsPathSeparator a) && negb (Ascii.eqb a ".") = true.
Proof.
  unfold sameLetter, IsPathSeparator. intros H Hp.
  apply orb_true_iff in H as [H|H]; [apply orb_true_iff in H as [H|H]|].
  - apply Ascii.eqb_eq in H. now subst.
  - apply andb_true_iff in H as [Ha _].
    destruct (Ascii.eqb_spec a "/") as [->|_]; [discriminate|].
    destruct (Ascii.eqb_spec a ".") as [->|_]; [discriminate|]. reflexivity.
  - apply andb_true_iff in H as [Hb H]. apply Ascii.eqb_eq in H. subst a.
    apply isUpper_bounds in Hb.
    assert (K : forall c, nat_of_ascii c < 97 ->
                  Ascii.eqb (ascii_of_nat (nat_of_ascii b + 32)) c = false).
    { intros c Hc. apply Ascii.eqb_neq. intros E.
      apply (f_equal nat_of_ascii) in E.
      rewrite nat_ascii_embedding in E by lia. lia. }
    rewrite !K by (cbn; lia). reflexivity.
Qed.

Lemma equalFold_plain (s t : string) :
  equalFold s t = true -> plainName t = true -> plainName s = true.
Proof.
  revert t. induction s as [|a s IH]; intros [|b t] H Ht; cbn in *;
    try discriminate; trivial.
  apply andb_true_iff in H as [Hab H].
  apply andb_true_iff in Ht as [Hb Ht].
  rewrite (sameLetter_plain a b Hab Hb). cbn. now apply (IH t).
Qed.

(** X11.  The format of a path is read off the part after the last dot
    of its last element, whatever the directories and the stem: such a
    part that is [parquet] up to case gives the Parquet format, one that
    is [csv] or [gz] up to case the CSV format; and a path whose last
    element has no dot, a path that ends in a separator included, is
    unsupported. *)
Theorem format_of_last_element (front e : string) :
  (equalFold e "parquet" = true ->
   determineFileFormat (front ++ String "." e) = Parquet)
  /\ (equalFold e "csv" = true \/ equalFold e "gz" = true ->
      determineFileFormat (front ++ String "." e) = CSV)
  /\ (plainName e = true ->
      determineFileFormat e = Unsupported
      /\ determineFileFormat (front ++ String "/" e) = Unsupported).
Proof.
  assert (Hdot : forall t,
             equalFold (String "." e) (String "." t) = equalFold e t)
    by reflexivity.
  split; [|split].
  - intros H. rewrite determineFileFormat_fold.
    rewrite Ext_after_dot by (now apply (equalFold_plain e "parquet")).
    change ".parquet" with (String "." "parquet"). now rewrite Hdot, H.
  - intros H. rewrite determineFileFormat_fold.
    rewrite Ext_after_dot
      by (destruct H as [H|H];
          [now apply (equalFold_plain e "csv")
          | now apply (equalFold_plain e "gz")]).
    change ".parquet" with (String "." "parquet").
    change ".csv" with (String "." "csv").
    change ".gz" with (String "." "gz"). rewrite !Hdot.
    destruct (equalFold e "parquet") eqn:Hp.
    + apply equalFold_length in Hp.
      destruct H as [H|H]; apply equalFold_length in H;
        rewrite H in Hp; discriminate.
    + destruct H as [H|H]; rewrite H; [reflexivity|].
      now rewrite orb_true_r.
  - intros H.
    assert (E1 : Ext e = EmptyString)
      by exact (Ext_without_dot EmptyString e H (or_introl eq_refl)).
    assert (E2 : Ext (front ++ String "/" e) = EmptyString).
    { replace (front ++ String "/" e)
        with ((front ++ String "/" EmptyString) ++ e)
        by (now rewrite append_assoc).
      apply Ext_without_dot; eauto. }
    unfold determineFileFormat. cbn zeta. rewrite E1, E2. split; reflexivity.
Qed.
